(** * muscle-image: the layer-composition handler of [src/functions/muscle-image.js]

    A shallow embedding of the Netlify function that overlays tinted muscle
    silhouettes on a base body image.  JavaScript strings are byte strings,
    the query-parameter object is a finite map, the allow-list is a finite
    set, and the collaborators the handler calls ([fs], [sharp], the [Number]
    builtin) are the fields of a [World] record.  Console output and file
    accesses are recorded in an event log so that statements about warnings
    and about which paths are touched can be made. *)

From Stdlib Require Import ZArith NArith Ascii String List Floats.SpecFloat.
From stdpp Require Import base option list gmap strings sorting.

Local Open Scope string_scope.
Local Open Scope list_scope.

(** ** JavaScript string helpers *)

Module JsString.

(** [s.split(sep)] for a one-character separator: always at least one
    token, empty tokens kept. *)
Fixpoint split (sep : ascii) (s : string) : list string :=
  match s with
  | EmptyString => [EmptyString]
  | String c rest =>
      if Ascii.eqb c sep then EmptyString :: split sep rest
      else match split sep rest with
           | tok :: toks => String c tok :: toks
           | [] => [String c EmptyString]
           end
  end.

(** [toks.join(sep)]. *)
Fixpoint join (sep : string) (toks : list string) : string :=
  match toks with
  | [] => EmptyString
  | [tok] => tok
  | tok :: rest => tok +:+ sep +:+ join sep rest
  end.

(** [Boolean(s)] on a string: only the empty string is falsy. *)
Definition truthy (s : string) : bool :=
  match s with
  | EmptyString => false
  | String _ _ => true
  end.

(** [s.includes(c)] for a character [c]. *)
Fixpoint includes (c : ascii) (s : string) : bool :=
  match s with
  | EmptyString => false
  | String c' rest => Ascii.eqb c' c || includes c rest
  end.

(** [s.startsWith(p)]. *)
Definition startsWith (p s : string) : bool := String.prefix p s.

End JsString.

(** ** [path.resolve] on POSIX paths *)

Module Path.
Import JsString.

(** One step of normalisation; the stack holds the kept segments, last
    segment first. *)
Definition push_segment (stack : list string) (seg : string) : list string :=
  if String.eqb seg "" then stack
  else if String.eqb seg "." then stack
  else if String.eqb seg ".." then tail stack
  else seg :: stack.

Definition normalize_segments (segs : list string) : list string :=
  rev (fold_left push_segment segs []).

Definition of_segments (segs : list string) : string :=
  "/" +:+ join "/" segs.

(** [path.resolve(from, to)] where [from] is absolute, as [__dirname]
    always is: an absolute [to] replaces [from], a relative one is
    appended; the result is normalised. *)
Definition resolve (from to : string) : string :=
  if startsWith "/" to
  then of_segments (normalize_segments (split "/" to))
  else of_segments (normalize_segments (split "/" from ++ split "/" to)).

End Path.

(** ** The allow-list *)

Definition availableMuscleGroups : gset string :=
  list_to_set
    [ "all"; "all_lower"; "all_upper"; "abductors"; "abs"; "adductors"; "back";
      "back_lower"; "back_upper"; "biceps"; "calfs"; "chest"; "core"; "core_lower";
      "core_upper"; "forearms"; "gluteus"; "hamstring"; "hands"; "latissimus";
      "legs"; "neck"; "quadriceps"; "shoulders"; "shoulders_back"; "shoulders_front";
      "triceps" ].

(** [availableMuscleGroups.has(muscle)]. *)
Definition has_muscle (muscle : string) : bool :=
  bool_decide (muscle ∈ availableMuscleGroups).

(** ** Buffers and the two serialisers the responses use *)

(** A Node [Buffer]: a sequence of bytes. *)
Definition buffer : Type := list Byte.byte.

Module Encoding.

Definition dquote : ascii := "034"%char.
Definition backslash : ascii := "092"%char.

Definition base64_alphabet : string :=
  "ABCDEFGHIJKLMNOPQRSTUVWXYZabcdefghijklmnopqrstuvwxyz0123456789+/".

Definition base64_char (n : N) : string :=
  match String.get (N.to_nat n) base64_alphabet with
  | Some c => String c EmptyString
  | None => "="
  end.

(** [buf.toString('base64')]: three bytes become four characters, with
    [=] padding on a final group of one or two bytes. *)
Fixpoint toBase64 (buf : buffer) : string :=
  match buf with
  | [] => ""
  | [a] =>
      let x := Byte.to_N a in
      base64_char (N.shiftr x 2) +:+ base64_char (N.shiftl (N.land x 3) 4) +:+ "=="
  | [a; b] =>
      let x := Byte.to_N a in
      let y := Byte.to_N b in
      base64_char (N.shiftr x 2)
      +:+ base64_char (N.lor (N.shiftl (N.land x 3) 4) (N.shiftr y 4))
      +:+ base64_char (N.shiftl (N.land y 15) 2) +:+ "="
  | a :: b :: c :: rest =>
      let x := Byte.to_N a in
      let y := Byte.to_N b in
      let z := Byte.to_N c in
      base64_char (N.shiftr x 2)
      +:+ base64_char (N.lor (N.shiftl (N.land x 3) 4) (N.shiftr y 4))
      +:+ base64_char (N.lor (N.shiftl (N.land y 15) 2) (N.shiftr z 6))
      +:+ base64_char (N.land z 63)
      +:+ toBase64 rest
  end.

Definition hex_char (n : N) : string :=
  match String.get (N.to_nat n) "0123456789abcdef" with
  | Some c => String c EmptyString
  | None => "?"
  end.

(** The escape [JSON.stringify] writes for one character of a string. *)
Definition json_escape (c : ascii) : string :=
  let n := N_of_ascii c in
  if N.eqb n 34 then String backslash (String dquote EmptyString)
  else if N.eqb n 92 then String backslash (String backslash EmptyString)
  else if N.eqb n 8 then String backslash "b"
  else if N.eqb n 9 then String backslash "t"
  else if N.eqb n 10 then String backslash "n"
  else if N.eqb n 12 then String backslash "f"
  else if N.eqb n 13 then String backslash "r"
  else if N.ltb n 32 then String backslash "u00" +:+ hex_char (N.div n 16) +:+ hex_char (N.modulo n 16)
  else String c EmptyString.

Fixpoint json_escape_all (s : string) : string :=
  match s with
  | EmptyString => EmptyString
  | String c rest => json_escape c +:+ json_escape_all rest
  end.

(** [JSON.stringify(s)] for a string [s]. *)
Definition json_string (s : string) : string :=
  String dquote (json_escape_all s) +:+ String dquote EmptyString.

(** [JSON.stringify(obj)] for an object whose values are strings. *)
Definition json_object (fields : list (string * string)) : string :=
  "{" +:+ JsString.join "," (map (fun kv => json_string (fst kv) +:+ ":" +:+ json_string (snd kv)) fields) +:+ "}".

End Encoding.

(** ** What the handler sees and what it can do *)

(** The argument of [tint]: [{ r: colorRgb[0], g: colorRgb[1], b: colorRgb[2] }].
    A component is [None] when the array has no such index ([undefined]). *)
Record rgb : Type := RGB {
  r : option spec_float;
  g : option spec_float;
  b : option spec_float
}.

(** An entry of the list given to [composite]: [{ input: layerBuffer }]. *)
Record overlay : Type := Overlay { input : buffer }.

(** The collaborators.  Each is a function of its arguments: the static
    assets do not change between or during requests. *)
Record World : Type := {
  (** [__dirname], an absolute path *)
  dirname : string;
  (** [fs.existsSync] *)
  existsSync : string -> bool;
  (** the [Number] builtin applied to a string *)
  Number : string -> spec_float;
  (** how [sharp(path).tint(c).toBuffer()] settles: the buffer, or the
      message of the error it rejects with *)
  sharp_tint : string -> rgb -> buffer + string;
  (** how [sharp(base).composite(layers).png().toBuffer()] settles *)
  sharp_composite_png : string -> list overlay -> buffer + string;
  (** the message of the [TypeError] raised by destructuring [null] or
      [undefined] *)
  destructure_message : string
}.

(** The part of the Netlify event the handler reads.  [None] stands for a
    [queryStringParameters] that is [null] or [undefined]. *)
Record Event : Type := {
  queryStringParameters : option (gmap string string)
}.

(** What the handler returns.  The error response has neither [headers]
    nor [isBase64Encoded]. *)
Record response : Type := {
  statusCode : Z;
  headers : option (list (string * string));
  body : string;
  isBase64Encoded : option bool
}.

(** Observable effects, in the order they happen. *)
Inductive effect : Type :=
| ConsoleWarn (msg : string)
| ConsoleError (msg reason : string)
| FsExistsSync (path : string)
| SharpTint (path : string) (colour : rgb)
| SharpComposite (base : string) (layers : list overlay).

(** A promise, identified with the way it ends. *)
Inductive promise (A : Type) : Type :=
| Fulfilled (v : A)
| Rejected (reason : string)
| Pending.
Arguments Fulfilled {A} v.
Arguments Rejected {A} reason.
Arguments Pending {A}.

(** ** The effect monad: a log of effects and a completion *)

Inductive completion (A : Type) : Type :=
| Normal (a : A)
| Thrown (reason : string)
| Stuck.
Arguments Normal {A} a.
Arguments Thrown {A} reason.
Arguments Stuck {A}.

Definition M (A : Type) : Type := (list effect * completion A)%type.

#[export] Instance M_ret : MRet M := fun A a => ([], Normal a).

#[export] Instance M_bind : MBind M := fun A B f m =>
  match m with
  | (log, Normal a) => let '(log', c) := f a in (log ++ log', c)
  | (log, Thrown reason) => (log, Thrown reason)
  | (log, Stuck) => (log, Stuck)
  end.

Definition perform (e : effect) : M unit := ([e], Normal tt).
Definition throw {A} (reason : string) : M A := ([], Thrown reason).

(** [await p]: the value, the rejection rethrown, or no continuation. *)
Definition await {A} (p : promise A) : M A :=
  match p with
  | Fulfilled v => mret v
  | Rejected reason => throw reason
  | Pending => ([], Stuck)
  end.

Definition settled_as {A} (res : A + string) : promise A :=
  match res with
  | inl v => Fulfilled v
  | inr reason => Rejected reason
  end.

(** ** [Promise.all] *)

Module PromiseAll.

(** The order in which the promises of the array settle.  [time i] is the
    instant the promise at index [i] settles; it is not under the
    program's control. *)
Definition settles_before (time : nat -> nat) : relation nat :=
  fun i j => (time i <= time j)%nat.

#[export] Instance settles_before_dec time : RelDecision (settles_before time) :=
  fun i j => decide (time i <= time j)%nat.

Definition completion_order (time : nat -> nat) (n : nat) : list nat :=
  merge_sort (settles_before time) (seq 0 n).

(** The reactions run in settlement order.  A fulfilment stores its value
    at the index of its promise; the first rejection rejects the whole.
    When every reaction has run the result is fulfilled with the values
    in index order, provided every slot was filled; with an empty slot the
    result stays pending. *)
Fixpoint react {A} (ps : list (promise A)) (order : list nat)
    (values : list (option A)) : promise (list A) :=
  match order with
  | [] =>
      match mapM id values with
      | Some vs => Fulfilled vs
      | None => Pending
      end
  | i :: order' =>
      match ps !! i with
      | Some (Fulfilled v) => react ps order' (<[i := Some v]> values)
      | Some (Rejected reason) => Rejected reason
      | Some Pending | None => react ps order' values
      end
  end.

(** [Promise.all(ps)], every promise of [ps] settling at its [time]. *)
Definition all {A} (time : nat -> nat) (ps : list (promise A)) : promise (list A) :=
  react ps (completion_order time (length ps)) (replicate (length ps) None).

End PromiseAll.

(** ** The source, function by function *)

Section Handler.

Variable W : World.

Definition console_warn (msg : string) : M unit := perform (ConsoleWarn msg).

Definition fs_existsSync (path : string) : M bool :=
  perform (FsExistsSync path);; mret (existsSync W path).

(** [sharp(path).tint(colour).toBuffer()]: the work is started and a
    promise for its buffer is returned. *)
Definition sharp_tint_toBuffer (path : string) (colour : rgb) : M (promise (option buffer)) :=
  perform (SharpTint path colour);;
  mret (settled_as (sum_map Some id (sharp_tint W path colour))).

(** [sharp(base).composite(layers).png().toBuffer()]. *)
Definition sharp_composite_png_toBuffer (base : string) (layers : list overlay) : M (promise buffer) :=
  perform (SharpComposite base layers);;
  mret (settled_as (sharp_composite_png W base layers)).

(** [path.resolve(__dirname, `../images/${muscle}.png`)]. *)
Definition musclePath (muscle : string) : string :=
  Path.resolve (dirname W) ("../images/" +:+ muscle +:+ ".png").

(** [createTintedLayer]: an [async] function, so its result is a promise;
    the promise of [null] is [Fulfilled None]. *)
Definition createTintedLayer (muscle : string) (colorRgb : list spec_float)
    : M (promise (option buffer)) :=
  if negb (has_muscle muscle) then
    console_warn ("Invalid muscle group requested: " +:+ muscle);;
    mret (Fulfilled None)
  else
    found ← fs_existsSync (musclePath muscle);
    if negb found then
      console_warn ("Image file not found for muscle: " +:+ muscle);;
      mret (Fulfilled None)
    else
      sharp_tint_toBuffer (musclePath muscle)
        {| r := colorRgb !! 0%nat; g := colorRgb !! 1%nat; b := colorRgb !! 2%nat |}.

(** [const { ... } = event.queryStringParameters]. *)
Definition destructure (event : Event) : M (gmap string string) :=
  match queryStringParameters event with
  | Some q => mret q
  | None => throw (destructure_message W)
  end.

(** A destructured property with its default value. *)
Definition param (q : gmap string string) (key dflt : string) : string :=
  default dflt (q !! key).

Definition baseImagePath (transparent : string) : string :=
  if String.eqb transparent "1"
  then Path.resolve (dirname W) "../images/baseImage_transparent.png"
  else Path.resolve (dirname W) "../images/baseImage.png".

(** [s.split(',').filter(Boolean)]. *)
Definition muscle_list (s : string) : list string :=
  filter (fun tok => JsString.truthy tok) (JsString.split "," s).

(** [s.split(',').map(Number)]. *)
Definition color_list (s : string) : list spec_float :=
  map (Number W) (JsString.split "," s).

(** The loop over [allLayers]: a buffer is pushed, [null] is not. *)
Fixpoint push_layers (allLayers : list (option buffer)) (compositeLayers : list overlay)
    : list overlay :=
  match allLayers with
  | [] => compositeLayers
  | Some layerBuffer :: rest => push_layers rest (compositeLayers ++ [{| input := layerBuffer |}])
  | None :: rest => push_layers rest compositeLayers
  end.

(** The object returned at the end of the [try] block. *)
Definition ok_response (finalImageBuffer : buffer) : response :=
  {| statusCode := 200;
     headers := Some [("Content-Type", "image/png")];
     body := Encoding.toBase64 finalImageBuffer;
     isBase64Encoded := Some true |}.

(** The object returned by the [catch] block, for an error with the given
    [message]. *)
Definition error_response (message : string) : response :=
  {| statusCode := 500;
     headers := None;
     body := Encoding.json_object
               [("error", "Failed to generate image."); ("details", message)];
     isBase64Encoded := None |}.

(** The body of the [try] block. *)
Definition handler_try (event : Event) (time : nat -> nat) : M response :=
  q ← destructure event;
  let primary_muscles := param q "primary_muscles" "" in
  let secondary_muscles := param q "secondary_muscles" "" in
  let primary_color := param q "primary_color" "255,152,0" in
  let secondary_color := param q "secondary_color" "255,211,144" in
  let transparent := param q "transparent" "0" in
  let primaryMuscles := muscle_list primary_muscles in
  let secondaryMuscles := muscle_list secondary_muscles in
  let primaryColorRgb := color_list primary_color in
  let secondaryColorRgb := color_list secondary_color in
  primaryPromises ← mapM (fun muscle => createTintedLayer muscle primaryColorRgb) primaryMuscles;
  secondaryPromises ← mapM (fun muscle => createTintedLayer muscle secondaryColorRgb) secondaryMuscles;
  allLayers ← await (PromiseAll.all time (primaryPromises ++ secondaryPromises));
  let compositeLayers := push_layers allLayers [] in
  finalImagePromise ← sharp_composite_png_toBuffer (baseImagePath transparent) compositeLayers;
  finalImageBuffer ← await finalImagePromise;
  mret (ok_response finalImageBuffer).

(** [exports.handler]: the [try] block and its [catch].  The log of
    effects comes with the response; the response is [None] when the
    handler is left waiting for a promise that never settles. *)
Definition handler (event : Event) (time : nat -> nat) : list effect * option response :=
  match handler_try event time with
  | (log, Normal resp) => (log, Some resp)
  | (log, Thrown reason) =>
      (log ++ [ConsoleError "Error generating image:" reason], Some (error_response reason))
  | (log, Stuck) => (log, None)
  end.

End Handler.

(** ** Notions the statements are written with *)

Module Reading.

(** The rejection that settles first, if any promise of [ps] rejects. *)
Definition first_rejected {A} (ps : list (promise A)) (order : list nat) : option string :=
  head (omap (fun i => match ps !! i with
                       | Some (Rejected reason) => Some reason
                       | _ => None
                       end) order).

Definition fulfilled_value {A} (p : promise A) : option A :=
  match p with Fulfilled v => Some v | _ => None end.

Definition rejected_reason {A} (p : promise A) : option string :=
  match p with Rejected reason => Some reason | _ => None end.

(** Every promise the handler creates settles. *)
Definition settled {A} (p : promise A) : Prop := p ≠ Pending.

Definition fulfilled_values {A} (ps : list (promise A)) : list A := omap fulfilled_value ps.
Definition rejections {A} (ps : list (promise A)) : list string := omap rejected_reason ps.

(** The [sharp] calls of a log, and the paths a log touches. *)
Definition composite_of (e : effect) : option (string * list overlay) :=
  match e with SharpComposite base layers => Some (base, layers) | _ => None end.
Definition tint_of (e : effect) : option (string * rgb) :=
  match e with SharpTint path colour => Some (path, colour) | _ => None end.
Definition warning_of (e : effect) : option string :=
  match e with ConsoleWarn msg => Some msg | _ => None end.
Definition path_of (e : effect) : option string :=
  match e with
  | FsExistsSync path | SharpTint path _ | SharpComposite path _ => Some path
  | ConsoleWarn _ | ConsoleError _ _ => None
  end.

Definition composites (log : list effect) : list (string * list overlay) := omap composite_of log.
Definition tints (log : list effect) : list (string * rgb) := omap tint_of log.
Definition warnings (log : list effect) : list string := omap warning_of log.
Definition paths_touched (log : list effect) : list string := omap path_of log.

Section WithWorld.
Variable W : World.

Definition rgb_of (colorRgb : list spec_float) : rgb :=
  {| r := colorRgb !! 0%nat; g := colorRgb !! 1%nat; b := colorRgb !! 2%nat |}.

(** Validation (spec 4.1): in the allow-list and backed by a file. *)
Definition valid (muscle : string) : bool :=
  has_muscle muscle && existsSync W (musclePath W muscle).

(** The promise [createTintedLayer] returns and the effects it has. *)
Definition layer_promise (colorRgb : list spec_float) (muscle : string) : promise (option buffer) :=
  if valid muscle
  then settled_as (sum_map Some id (sharp_tint W (musclePath W muscle) (rgb_of colorRgb)))
  else Fulfilled None.

Definition layer_log (colorRgb : list spec_float) (muscle : string) : list effect :=
  if has_muscle muscle then
    if existsSync W (musclePath W muscle)
    then [FsExistsSync (musclePath W muscle); SharpTint (musclePath W muscle) (rgb_of colorRgb)]
    else [FsExistsSync (musclePath W muscle);
          ConsoleWarn ("Image file not found for muscle: " +:+ muscle)]
  else [ConsoleWarn ("Invalid muscle group requested: " +:+ muscle)].

(** The values the handler destructures and derives from a
    query-parameter object. *)
Definition primaryMuscles (q : gmap string string) : list string :=
  muscle_list (param q "primary_muscles" "").
Definition secondaryMuscles (q : gmap string string) : list string :=
  muscle_list (param q "secondary_muscles" "").
Definition primaryColorRgb (q : gmap string string) : list spec_float :=
  color_list W (param q "primary_color" "255,152,0").
Definition secondaryColorRgb (q : gmap string string) : list spec_float :=
  color_list W (param q "secondary_color" "255,211,144").
Definition selected_base (q : gmap string string) : string :=
  baseImagePath W (param q "transparent" "0").

Definition transparent_base : string :=
  Path.resolve (dirname W) "../images/baseImage_transparent.png".
Definition opaque_base : string :=
  Path.resolve (dirname W) "../images/baseImage.png".

(** The array given to [Promise.all] and the effects of building it. *)
Definition request_promises (q : gmap string string) : list (promise (option buffer)) :=
  (layer_promise (primaryColorRgb q) <$> primaryMuscles q)
  ++ (layer_promise (secondaryColorRgb q) <$> secondaryMuscles q).

Definition request_log (q : gmap string string) : list effect :=
  (primaryMuscles q ≫= layer_log (primaryColorRgb q))
  ++ (secondaryMuscles q ≫= layer_log (secondaryColorRgb q)).

(** The tint tasks a list of identifiers starts: one for each identifier
    that passes validation, in list order. *)
Definition tint_calls (colorRgb : list spec_float) (muscles : list string) : list (string * rgb) :=
  (fun muscle => (musclePath W muscle, rgb_of colorRgb)) <$> filter (fun muscle => valid muscle) muscles.

(** The messages of the tint tasks of a request that reject, in request
    order; empty when every tint succeeds. *)
Definition tint_failures (q : gmap string string) : list string :=
  rejections (request_promises q).

(** Spec 4.2, step 4: the successfully tinted layers in request order,
    primary list first, then the secondary list. *)
Definition tinted_layer (colorRgb : list spec_float) (muscle : string) : option buffer :=
  if valid muscle then
    match sharp_tint W (musclePath W muscle) (rgb_of colorRgb) with
    | inl layerBuffer => Some layerBuffer
    | inr _ => None
    end
  else None.

Definition tinted_layers (colorRgb : list spec_float) (muscles : list string) : list overlay :=
  Overlay <$> omap (tinted_layer colorRgb) muscles.

Definition stacking_order (q : gmap string string) : list overlay :=
  tinted_layers (primaryColorRgb q) (primaryMuscles q)
  ++ tinted_layers (secondaryColorRgb q) (secondaryMuscles q).

(** The response that ends a request whose tints all succeeded. *)
Definition finish (res : buffer + string) : response :=
  match res with
  | inl finalImageBuffer => ok_response finalImageBuffer
  | inr reason => error_response reason
  end.

Definition finish_log (res : buffer + string) : list effect :=
  match res with
  | inl _ => []
  | inr reason => [ConsoleError "Error generating image:" reason]
  end.

(** The handler, read off as a function of the request: which
    rejection comes first decides between the two ways it ends. *)
Definition handler_reading (event : Event) (time : nat -> nat) : list effect * option response :=
  match queryStringParameters event with
  | None =>
      ([ConsoleError "Error generating image:" (destructure_message W)],
       Some (error_response (destructure_message W)))
  | Some q =>
      let ps := request_promises q in
      match first_rejected ps (PromiseAll.completion_order time (length ps)) with
      | Some reason =>
          (request_log q ++ [ConsoleError "Error generating image:" reason],
           Some (error_response reason))
      | None =>
          let res := sharp_composite_png W (selected_base q) (stacking_order q) in
          (request_log q ++ [SharpComposite (selected_base q) (stacking_order q)] ++ finish_log res,
           Some (finish res))
      end
  end.

End WithWorld.



(** All the messages of a list are the same message. *)
Definition same_reasons (reasons : list string) : bool :=
  match reasons with
  | [] => true
  | reason :: rest => forallb (String.eqb reason) rest
  end.

(** An ordinary file name: no slash, and not one of the special
    segments. *)
Definition plain_name (name : string) : Prop :=
  JsString.includes "/" name = false ∧ name ≠ "" ∧ name ≠ "." ∧ name ≠ "..".

(** A token made of ASCII white space only. *)
Definition blank (tok : string) : bool :=
  JsString.truthy tok && forallb Ascii.is_space (list_ascii_of_string tok).

End Reading.

(** ** Sample worlds and requests

    Concrete collaborators on which the handler can be run.  The general
    theorems quantify over every [World]; these are used for the examples,
    the witnesses and the counterexamples only. *)

Module Sample.

Definition bytes (s : string) : buffer := list_byte_of_string s.

Fixpoint decimal (s : string) (acc : Z) : option Z :=
  match s with
  | EmptyString => Some acc
  | String c rest =>
      let n := Z.of_N (N_of_ascii c) in
      if (48 <=? n)%Z && (n <=? 57)%Z then decimal rest (10 * acc + (n - 48))%Z else None
  end.

(** [Number] on the tokens the samples use: the empty string is [+0], a
    run of decimal digits is that integer as a double, and a token with
    any other character in the samples is not a numeric literal. *)
Definition number (s : string) : spec_float :=
  match decimal s 0 with
  | Some n => binary_normalize 53 1024 n 0 false
  | None => S754_nan
  end.

Definition images : string := "/var/task/images/".

(** The deployed assets: both base images and three muscle images. *)
Definition deployed : list string :=
  [ images +:+ "baseImage.png"; images +:+ "baseImage_transparent.png";
    images +:+ "abs.png"; images +:+ "biceps.png"; images +:+ "chest.png" ].

Definition type_error : string :=
  "Cannot destructure property 'primary_muscles' of 'event.queryStringParameters' as it is null.".

(** A world in which every deployed image decodes: a tinted layer is the
    bytes of its path, a composite is the bytes of the base path followed
    by the layers in the order given. *)
Definition world : World :=
  {| dirname := "/var/task/functions";
     existsSync := fun path => bool_decide (path ∈ deployed);
     Number := number;
     sharp_tint := fun path _ => inl (bytes path);
     sharp_composite_png := fun base layers => inl (bytes base ++ concat (map input layers));
     destructure_message := type_error |}.

(** The same deployment with two damaged muscle images, which fail to
    decode with different messages. *)
Definition damaged : World :=
  {| dirname := dirname world;
     existsSync := existsSync world;
     Number := number;
     sharp_tint := fun path colour =>
       if String.eqb path (images +:+ "abs.png") then inr "pngload: end of stream"
       else if String.eqb path (images +:+ "biceps.png") then inr "Input file contains unsupported image format"
       else sharp_tint world path colour;
     sharp_composite_png := sharp_composite_png world;
     destructure_message := type_error |}.

Definition request (kvs : list (string * string)) : Event :=
  {| queryStringParameters := Some (list_to_map kvs) |}.

(** Promises settle in index order, or in the reverse order. *)
Definition in_order : nat -> nat := fun i => i.
Definition reversed : nat -> nat := fun i => (100 - i)%nat.

End Sample.

(** ** Further observations on a log and on a request *)

Module Observations.
Import Reading.

Definition error_of (e : effect) : option string :=
  match e with ConsoleError _ reason => Some reason | _ => None end.
Definition exists_check_of (e : effect) : option string :=
  match e with FsExistsSync path => Some path | _ => None end.

(** The reasons given to [console.error], and the paths given to
    [fs.existsSync], in the order of the log. *)
Definition errors_logged (log : list effect) : list string := omap error_of log.
Definition exists_checks (log : list effect) : list string := omap exists_check_of log.

(** The warning the two guards of [createTintedLayer] print for an
    identifier; none when it passes both. *)
Definition warning_for (W : World) (muscle : string) : option string :=
  if has_muscle muscle then
    if existsSync W (musclePath W muscle) then None
    else Some ("Image file not found for muscle: " +:+ muscle)
  else Some ("Invalid muscle group requested: " +:+ muscle).

(** The five properties the handler destructures. *)
Definition request_keys : list string :=
  [ "primary_muscles"; "secondary_muscles"; "primary_color"; "secondary_color"; "transparent" ].

(** A lower-case ASCII letter or an underscore. *)
Definition identifier_char (c : ascii) : bool :=
  let n := N_of_ascii c in
  ((97 <=? n)%N && (n <=? 122)%N) || (n =? 95)%N.

Definition identifier_like (s : string) : bool :=
  forallb identifier_char (list_ascii_of_string s).

End Observations.

(** * Proofs *)

Import Reading.

(** ** Splitting, joining and resolving *)

Section StringFacts.
Import JsString.

Lemma append_cons c (s1 s2 : string) : String c s1 +:+ s2 = String c (s1 +:+ s2).
Proof. reflexivity. Qed.

Lemma append_assoc (s1 s2 s3 : string) : (s1 +:+ s2) +:+ s3 = s1 +:+ s2 +:+ s3.
Proof. induction s1 as [|c s1 IH]; [done | by rewrite !append_cons, IH]. Qed.

Lemma split_nonempty sep s : split sep s ≠ [].
Proof.
  destruct s as [|c s]; simpl; [done|].
  destruct (Ascii.eqb c sep); [done|].
  by destruct (split sep s).
Qed.

Lemma split_no_sep sep s : includes sep s = false → split sep s = [s].
Proof.
  induction s as [|c s IH]; simpl; [done|].
  intros [Hc Hs]%orb_false_elim. by rewrite Hc, (IH Hs).
Qed.

Lemma split_app_sep sep s1 s2 :
  split sep (s1 +:+ String sep s2) = split sep s1 ++ split sep s2.
Proof.
  induction s1 as [|c s1 IH]; [|rewrite append_cons]; simpl.
  - by rewrite Ascii.eqb_refl.
  - destruct (Ascii.eqb c sep); [by rewrite IH|].
    rewrite IH. pose proof (split_nonempty sep s1).
    by destruct (split sep s1).
Qed.

Lemma join_cons sep tok tok' toks :
  join sep (tok :: tok' :: toks) = tok +:+ sep +:+ join sep (tok' :: toks).
Proof. done. Qed.

Lemma join_snoc sep toks tok tok' :
  join sep (toks ++ [tok; tok']) = join sep (toks ++ [tok]) +:+ sep +:+ tok'.
Proof.
  induction toks as [|t toks IH]; [done|].
  destruct toks as [|t' toks].
  - simpl. by rewrite !append_assoc.
  - change ((t :: t' :: toks) ++ [tok; tok']) with (t :: t' :: (toks ++ [tok; tok'])).
    change ((t :: t' :: toks) ++ [tok]) with (t :: t' :: (toks ++ [tok])).
    rewrite !join_cons. change (t' :: toks ++ [tok; tok']) with ((t' :: toks) ++ [tok; tok']).
    rewrite IH. by rewrite !append_assoc.
Qed.

(** Splitting undoes joining, for tokens without the separator. *)
Lemma split_join sep toks :
  toks ≠ [] →
  Forall (fun tok => includes sep tok = false) toks →
  split sep (join (String sep EmptyString) toks) = toks.
Proof.
  intros Hne Hall. induction Hall as [|tok toks Htok Hall IH]; [done|].
  destruct toks as [|tok' toks].
  - by apply split_no_sep.
  - rewrite join_cons.
    change (String sep "" +:+ join (String sep "") (tok' :: toks))
      with (String sep (join (String sep "") (tok' :: toks))).
    rewrite split_app_sep, (split_no_sep _ _ Htok), IH; done.
Qed.

Lemma push_plain stack name :
  plain_name name → Path.push_segment stack name = name :: stack.
Proof.
  intros (_ & H1 & H2 & H3). unfold Path.push_segment.
  rewrite !(proj2 (String.eqb_neq _ _)); done.
Qed.

(** A file of the images directory resolves to that directory followed by
    its name: the name cannot climb out of it. *)
Lemma resolve_in_images from name :
  plain_name name →
  Path.resolve from ("../images/" +:+ name)
  = Path.resolve from "../images" +:+ "/" +:+ name.
Proof.
  intros Hplain. unfold Path.resolve.
  change (startsWith "/" ("../images/" +:+ name)) with false.
  change (startsWith "/" "../images") with false. cbv iota.
  change ("../images/" +:+ name) with ("../images" +:+ String "/" name).
  rewrite split_app_sep, (split_no_sep _ _ (proj1 Hplain)).
  change (split "/" "../images") with [".."; "images"].
  unfold Path.normalize_segments, Path.of_segments.
  rewrite !fold_left_app. cbn [fold_left].
  change (Path.push_segment ?st "..") with (tail st).
  change (Path.push_segment ?st "images") with ("images" :: st).
  rewrite (push_plain _ _ Hplain).
  cbn [rev]. rewrite <- !app_assoc. cbn [app].
  by rewrite join_snoc, append_assoc.
Qed.

End StringFacts.

(** ** [Promise.all] settles as its first rejection, or with all values *)

Section PromiseAllFacts.
Context {A : Type}.
Implicit Types (ps : list (promise A)) (vs : list A) (order : list nat).

Lemma completion_order_elem time n i :
  i ∈ PromiseAll.completion_order time n ↔ i < n.
Proof.
  unfold PromiseAll.completion_order.
  rewrite merge_sort_Permutation, elem_of_seq. lia.
Qed.

Lemma first_rejected_cons ps i order :
  first_rejected ps (i :: order) =
    match ps !! i with
    | Some (Rejected reason) => Some reason
    | _ => first_rejected ps order
    end.
Proof.
  unfold first_rejected; simpl.
  destruct (ps !! i) as [[v|reason|]|]; reflexivity.
Qed.

Lemma react_rejected ps order values reason :
  first_rejected ps order = Some reason →
  PromiseAll.react ps order values = Rejected reason.
Proof.
  revert values. induction order as [|i order IH]; intros values.
  - discriminate.
  - rewrite first_rejected_cons. simpl.
    destruct (ps !! i) as [[v|reason'|]|]; intros Hfirst; auto.
    congruence.
Qed.

Lemma first_rejected_elem ps order reason :
  first_rejected ps order = Some reason →
  ∃ i, i ∈ order ∧ ps !! i = Some (Rejected reason).
Proof.
  induction order as [|i order IH].
  - discriminate.
  - rewrite first_rejected_cons.
    destruct (ps !! i) as [[v|reason'|]|] eqn:Hi; intros Hfirst;
      try (destruct (IH Hfirst) as (j & Hj & Hlook); exists j; split; [by right | done]).
    simplify_eq. exists i. split; [by left | done].
Qed.

Lemma first_rejected_none ps order i reason :
  first_rejected ps order = None → i ∈ order → ps !! i ≠ Some (Rejected reason).
Proof.
  induction order as [|j order IH]; intros Hnone Hin.
  - by apply elem_of_nil in Hin.
  - rewrite first_rejected_cons in Hnone.
    apply elem_of_cons in Hin as [->|Hin].
    + destruct (ps !! j) as [[v|reason'|]|]; congruence.
    + destruct (ps !! j) as [[v|reason'|]|]; try discriminate; by apply IH.
Qed.

Lemma fulfilled_values_fmap vs : fulfilled_values (Fulfilled <$> vs) = vs.
Proof.
  unfold fulfilled_values.
  induction vs as [|v vs IH]; [done | by simpl; f_equal].
Qed.

Lemma rejections_fmap vs : rejections (Fulfilled <$> vs) = [].
Proof. unfold rejections. induction vs as [|v vs IH]; simpl; done. Qed.

(** Filling the slots in any order gives the values in index order. *)
Lemma react_fulfilled vs order values :
  length values = length vs →
  (∀ i v, vs !! i = Some v → i ∈ order ∨ values !! i = Some (Some v)) →
  PromiseAll.react (Fulfilled <$> vs) order values = Fulfilled vs.
Proof.
  revert values. induction order as [|i order IH]; intros values Hlen Hinv; simpl.
  - assert (values = Some <$> vs) as ->.
    { apply list_eq. intros i. rewrite list_lookup_fmap.
      destruct (vs !! i) as [v|] eqn:Hv; simpl.
      - destruct (Hinv i v Hv) as [Hin|Hval]; [by apply elem_of_nil in Hin | done].
      - apply lookup_ge_None. apply lookup_ge_None in Hv. lia. }
    by rewrite mapM_fmap_Some.
  - rewrite list_lookup_fmap.
    destruct (vs !! i) as [v|] eqn:Hv; simpl.
    + apply IH; [by rewrite length_insert|].
      intros j w Hw. destruct (decide (i = j)) as [->|Hne].
      * right. simplify_eq. apply list_lookup_insert_eq.
        rewrite Hlen. by apply lookup_lt_is_Some.
      * rewrite list_lookup_insert_ne by done.
        destruct (Hinv j w Hw) as [Hin|Hval]; [|by right].
        apply elem_of_cons in Hin as [->|Hin]; [done | by left].
    + apply IH; [done|].
      intros j w Hw. destruct (Hinv j w Hw) as [Hin|Hval]; [|by right].
      apply elem_of_cons in Hin as [->|Hin]; [congruence | by left].
Qed.

(** Settled promises none of which rejects are all fulfilled. *)
Lemma settled_without_rejection ps order :
  Forall settled ps →
  first_rejected ps order = None →
  (∀ i, i < length ps → i ∈ order) →
  ps = Fulfilled <$> fulfilled_values ps.
Proof.
  intros Hsettled Hnone Hall.
  assert (Forall (λ p, ∃ v, p = Fulfilled v) ps) as Hful.
  { apply Forall_lookup_2. intros i p Hp.
    assert (i < length ps) as Hi by (apply lookup_lt_is_Some; eauto).
    destruct p as [v|reason|].
    - eauto.
    - by destruct (first_rejected_none ps order i reason Hnone (Hall i Hi)).
    - by destruct (Forall_lookup_1 _ _ _ _ Hsettled Hp). }
  clear -Hful. induction Hful as [|p ps [v ->] _ IH]; [done|].
  unfold fulfilled_values in *. simpl. by f_equal.
Qed.

Theorem promise_all_settles time ps :
  Forall settled ps →
  PromiseAll.all time ps =
    match first_rejected ps (PromiseAll.completion_order time (length ps)) with
    | Some reason => Rejected reason
    | None => Fulfilled (fulfilled_values ps)
    end.
Proof.
  intros Hsettled. unfold PromiseAll.all.
  destruct (first_rejected _ _) as [reason|] eqn:Hfirst.
  - by apply react_rejected.
  - pose proof (settled_without_rejection ps _ Hsettled Hfirst) as Heq.
    rewrite Heq at 1 by (intros i Hi; by apply completion_order_elem).
    assert (length ps = length (fulfilled_values ps)) as Hlen
      by (rewrite Heq at 1 by (intros i Hi; by apply completion_order_elem);
          by rewrite length_fmap).
    apply react_fulfilled.
    + by rewrite length_replicate.
    + intros i v Hv. left. apply completion_order_elem.
      rewrite Hlen. apply lookup_lt_is_Some. eauto.
Qed.

(** The first rejection is one of the rejections, and there is one
    exactly when some promise rejects. *)
Lemma first_rejected_in_rejections ps order reason :
  first_rejected ps order = Some reason → reason ∈ rejections ps.
Proof.
  intros (i & _ & Hi)%first_rejected_elem.
  unfold rejections. apply list_elem_of_omap.
  exists (Rejected reason). split; [|done].
  apply list_elem_of_lookup. eauto.
Qed.

Lemma first_rejected_is_none time ps :
  first_rejected ps (PromiseAll.completion_order time (length ps)) = None ↔ rejections ps = [].
Proof.
  split.
  - intros Hnone. unfold rejections.
    destruct (omap rejected_reason ps) as [|reason rs] eqn:Hrs; [done|].
    assert (reason ∈ omap rejected_reason ps) as Hin by (rewrite Hrs; by left).
    apply list_elem_of_omap in Hin as (p & Hp & Hreason).
    destruct p as [v|reason'|]; simplify_eq/=.
    apply list_elem_of_lookup in Hp as [i Hi].
    exfalso. eapply first_rejected_none; [exact Hnone| |exact Hi].
    apply completion_order_elem, lookup_lt_is_Some. eauto.
  - intros Hnil.
    destruct (first_rejected _ _) as [reason|] eqn:Hfirst; [|done].
    apply first_rejected_in_rejections in Hfirst.
    rewrite Hnil in Hfirst. by apply elem_of_nil in Hfirst.
Qed.

End PromiseAllFacts.

(** ** The handler is its reading *)

Section HandlerFacts.
Variable W : World.
Implicit Types (q : gmap string string) (muscle : string) (colorRgb : list spec_float).

Lemma createTintedLayer_eq muscle colorRgb :
  createTintedLayer W muscle colorRgb
  = (layer_log W colorRgb muscle, Normal (layer_promise W colorRgb muscle)).
Proof.
  unfold createTintedLayer, layer_log, layer_promise, valid.
  destruct (has_muscle muscle); simpl; [|done].
  destruct (existsSync W (musclePath W muscle)); simpl; done.
Qed.

Lemma mapM_createTintedLayer colorRgb (muscles : list string) :
  mapM (fun muscle => createTintedLayer W muscle colorRgb) muscles
  = (muscles ≫= layer_log W colorRgb, Normal (layer_promise W colorRgb <$> muscles)).
Proof.
  induction muscles as [|muscle muscles IH]; [done|].
  cbn [mapM]. rewrite IH, createTintedLayer_eq.
  cbn. by rewrite app_nil_r.
Qed.

Lemma layer_promise_settled colorRgb muscle : settled (layer_promise W colorRgb muscle).
Proof.
  unfold settled, layer_promise.
  destruct (valid W muscle); [|done].
  by destruct (sharp_tint W _ _).
Qed.

Lemma request_promises_settled q : Forall settled (request_promises W q).
Proof.
  unfold request_promises. apply Forall_app.
  split; apply Forall_fmap, Forall_forall; intros muscle _; apply layer_promise_settled.
Qed.

Lemma push_layers_eq (allLayers : list (option buffer)) (compositeLayers : list overlay) :
  push_layers allLayers compositeLayers = compositeLayers ++ (Overlay <$> omap id allLayers).
Proof.
  revert compositeLayers.
  induction allLayers as [|[layerBuffer|] rest IH]; intros compositeLayers; simpl.
  - by rewrite app_nil_r.
  - by rewrite IH, <- app_assoc.
  - apply IH.
Qed.

(** A promise that did not reject carries the tinted layer, if any. *)
Lemma layer_promise_value colorRgb muscle :
  rejected_reason (layer_promise W colorRgb muscle) = None →
  fulfilled_value (layer_promise W colorRgb muscle) = Some (tinted_layer W colorRgb muscle).
Proof.
  unfold layer_promise, tinted_layer.
  destruct (valid W muscle); [|done].
  by destruct (sharp_tint W _ _).
Qed.

Lemma layers_without_rejection colorRgb (muscles : list string) :
  rejections (layer_promise W colorRgb <$> muscles) = [] →
  Overlay <$> omap id (fulfilled_values (layer_promise W colorRgb <$> muscles))
  = tinted_layers W colorRgb muscles.
Proof.
  unfold tinted_layers, rejections, fulfilled_values. intros Hnone. f_equal.
  induction muscles as [|muscle muscles IH]; [done|].
  rewrite fmap_cons in *. cbn [omap list_omap] in *.
  destruct (rejected_reason _) eqn:Hrej; [done|].
  rewrite (layer_promise_value _ _ Hrej). cbn [omap list_omap].
  change (id (tinted_layer W colorRgb muscle)) with (tinted_layer W colorRgb muscle).
  destruct (tinted_layer W colorRgb muscle); by rewrite (IH Hnone).
Qed.

Lemma stacking_order_without_rejection q :
  rejections (request_promises W q) = [] →
  push_layers (fulfilled_values (request_promises W q)) [] = stacking_order W q.
Proof.
  unfold request_promises, stacking_order, rejections, fulfilled_values.
  rewrite !omap_app. intros [H1 H2]%app_eq_nil.
  rewrite push_layers_eq, omap_app, fmap_app. simpl.
  f_equal; by apply layers_without_rejection.
Qed.

Lemma bind_normal {A B} (log : list effect) (a : A) (f : A → M B) :
  (log, Normal a) ≫= f = (log ++ (f a).1, (f a).2).
Proof. unfold mbind, M_bind. by destruct (f a). Qed.

Lemma ret_bind {A B} (a : A) (f : A → M B) : mret a ≫= f = f a.
Proof. unfold mbind, M_bind, mret, M_ret. by destruct (f a). Qed.

Lemma await_all time q :
  await (PromiseAll.all time (request_promises W q))
  = match first_rejected (request_promises W q)
            (PromiseAll.completion_order time (length (request_promises W q))) with
    | Some reason => ([], Thrown reason)
    | None => ([], Normal (fulfilled_values (request_promises W q)))
    end.
Proof.
  rewrite (promise_all_settles time _ (request_promises_settled q)).
  by destruct (first_rejected _ _).
Qed.

(** The central fact: the source, run, is its reading. *)
Theorem handler_eq event time :
  handler W event time = handler_reading W event time.
Proof.
  unfold handler, handler_try, handler_reading, destructure.
  destruct (queryStringParameters event) as [q|]; [|done].
  rewrite ret_bind, !mapM_createTintedLayer.
  fold (primaryMuscles q) (secondaryMuscles q) (primaryColorRgb W q) (secondaryColorRgb W q).
  fold (selected_base W q).
  rewrite !bind_normal. fold (request_promises W q). rewrite await_all.
  destruct (first_rejected _ _) as [reason|] eqn:Hfirst.
  - cbn. by rewrite !app_nil_r.
  - apply first_rejected_is_none in Hfirst.
    rewrite bind_normal, (stacking_order_without_rejection q Hfirst).
    unfold request_log, sharp_composite_png_toBuffer, perform.
    rewrite !bind_normal.
    destruct (sharp_composite_png W _ _) as [finalImageBuffer|reason]; cbn;
      by rewrite ?app_nil_r, <- ?app_assoc.
Qed.

End HandlerFacts.

(** ** What a log contains *)

Section LogFacts.
Variable W : World.
Implicit Types (q : gmap string string) (muscle : string) (colorRgb : list spec_float).

Lemma omap_bind {A B C} (f : B → option C) (k : A → list B) (l : list A) :
  omap f (l ≫= k) = l ≫= (fun x => omap f (k x)).
Proof.
  induction l as [|x l IH]; [done|].
  by rewrite !bind_cons, omap_app, IH.
Qed.

Lemma bind_nil_each {A B} (k : A → list B) (l : list A) :
  (∀ x, k x = []) → l ≫= k = [].
Proof.
  intros Hk. induction l as [|x l IH]; [done|].
  by rewrite bind_cons, Hk, IH.
Qed.

Lemma composites_layer_log colorRgb muscle : composites (layer_log W colorRgb muscle) = [].
Proof.
  unfold layer_log.
  destruct (has_muscle muscle); [|done].
  by destruct (existsSync W _).
Qed.

Lemma composites_request_log q : composites (request_log W q) = [].
Proof.
  unfold composites, request_log. rewrite omap_app, !omap_bind.
  rewrite !bind_nil_each; auto using composites_layer_log.
Qed.

Lemma composites_finish_log res : composites (finish_log res) = [].
Proof. by destruct res. Qed.

(** The sum of the facts about one request, independent of the claim
    being looked at. *)
Lemma handler_some q time :
  handler W {| queryStringParameters := Some q |} time =
    match first_rejected (request_promises W q)
            (PromiseAll.completion_order time (length (request_promises W q))) with
    | Some reason =>
        (request_log W q ++ [ConsoleError "Error generating image:" reason],
         Some (error_response reason))
    | None =>
        let res := sharp_composite_png W (selected_base W q) (stacking_order W q) in
        (request_log W q ++ [SharpComposite (selected_base W q) (stacking_order W q)] ++ finish_log res,
         Some (finish res))
    end.
Proof. by rewrite handler_eq. Qed.

(** [composite] is called at most once, and exactly when no tint
    rejects. *)
Lemma handler_composites q time :
  composites (handler W {| queryStringParameters := Some q |} time).1
  = match tint_failures W q with
    | [] => [(selected_base W q, stacking_order W q)]
    | _ :: _ => []
    end.
Proof.
  rewrite handler_some.
  destruct (first_rejected _ _) as [reason|] eqn:Hfirst.
  - pose proof (first_rejected_in_rejections _ _ _ Hfirst) as Hin.
    fold (tint_failures W q) in Hin.
    destruct (tint_failures W q) as [|r0 rs]; [by apply elem_of_nil in Hin|].
    cbn [fst]. unfold composites. rewrite omap_app.
    fold (composites (request_log W q)). by rewrite composites_request_log.
  - apply first_rejected_is_none in Hfirst. unfold tint_failures. rewrite Hfirst.
    cbn [fst]. unfold composites. rewrite !omap_app.
    fold (composites (request_log W q)).
    fold (composites (finish_log (sharp_composite_png W (selected_base W q) (stacking_order W q)))).
    by rewrite composites_request_log, composites_finish_log.
Qed.


End LogFacts.

(** ** The claims *)


(** C2.  An identifier that is not in the allow-list, or whose image file
    does not exist, makes [createTintedLayer] warn and return the promise of
    [null] without starting a tint; it adds nothing to the stacking order,
    which is that of the valid identifiers alone.  A request whose valid
    layers tint and whose composite encodes ends with status 200 and the
    encoded composite of exactly those layers, however many invalid
    identifiers are mixed in. *)
Theorem invalid_identifiers_are_dropped
    (W : World) (q : gmap string string) (time : nat -> nat) (finalImageBuffer : buffer)
    (Htints : tint_failures W q = [])
    (Hencode : sharp_composite_png W (selected_base W q) (stacking_order W q) = inl finalImageBuffer) :
  (∀ muscle colorRgb, valid W muscle = false →
     (∃ log msg, createTintedLayer W muscle colorRgb = (log ++ [ConsoleWarn msg], Normal (Fulfilled None))
                 ∧ tints log = []
                 ∧ (msg = "Invalid muscle group requested: " +:+ muscle
                    ∨ msg = "Image file not found for muscle: " +:+ muscle))
     ∧ tinted_layers W colorRgb [muscle] = [])
  ∧ stacking_order W q
    = tinted_layers W (primaryColorRgb W q) (filter (fun muscle => valid W muscle) (primaryMuscles q))
      ++ tinted_layers W (secondaryColorRgb W q) (filter (fun muscle => valid W muscle) (secondaryMuscles q))
  ∧ (handler W {| queryStringParameters := Some q |} time).2 = Some (ok_response finalImageBuffer)
  ∧ statusCode (ok_response finalImageBuffer) = 200%Z
  ∧ composites (handler W {| queryStringParameters := Some q |} time).1
    = [(selected_base W q, stacking_order W q)].
Proof.
  assert (∀ colorRgb (muscles : list string),
            tinted_layers W colorRgb muscles
            = tinted_layers W colorRgb (filter (fun muscle => valid W muscle) muscles)) as Hfilter.
  { intros colorRgb muscles. unfold tinted_layers. f_equal.
    induction muscles as [|muscle muscles IH]; [done|].
    rewrite filter_cons. destruct (valid W muscle) eqn:Hvalid.
    - rewrite decide_True by done. cbn [omap list_omap].
      by destruct (tinted_layer W colorRgb muscle); rewrite IH.
    - rewrite decide_False by (by intros []). cbn [omap list_omap].
      unfold tinted_layer at 1. by rewrite Hvalid. }
  split; [|split; [|split; [|split]]].
  - intros muscle colorRgb Hinvalid. split.
    + rewrite createTintedLayer_eq. unfold layer_promise, layer_log.
      rewrite Hinvalid. unfold valid in Hinvalid.
      destruct (has_muscle muscle); simpl in Hinvalid.
      * rewrite Hinvalid. eexists [FsExistsSync (musclePath W muscle)], _. auto.
      * eexists [], _. auto.
    + unfold tinted_layers, tinted_layer. cbn. by rewrite Hinvalid.
  - unfold stacking_order. by rewrite <- !Hfilter.
  - rewrite handler_some.
    apply first_rejected_is_none with (time := time) in Htints.
    rewrite Htints. cbn. by rewrite Hencode.
  - reflexivity.
  - by rewrite handler_composites, Htints.
Qed.

(** The request of the spec's example: one valid identifier and one
    unknown one. *)
Lemma invalid_identifiers_are_dropped_witness :
  let q : gmap string string := list_to_map [("primary_muscles", "biceps,not_a_muscle")] in
  let png := Sample.bytes "/var/task/images/baseImage.png"
             ++ Sample.bytes "/var/task/images/biceps.png" in
  tint_failures Sample.world q = []
  ∧ sharp_composite_png Sample.world (selected_base Sample.world q) (stacking_order Sample.world q)
    = inl png
  ∧ valid Sample.world "not_a_muscle" = false
  ∧ (handler Sample.world {| queryStringParameters := Some q |} Sample.in_order).2
    = Some (ok_response png)
  ∧ composites (handler Sample.world {| queryStringParameters := Some q |} Sample.in_order).1
    = [("/var/task/images/baseImage.png",
        [ {| input := Sample.bytes "/var/task/images/biceps.png" |} ])].
Proof.
  intros q png.
  assert (tint_failures Sample.world q = []) as Htints by (vm_compute; reflexivity).
  assert (sharp_composite_png Sample.world (selected_base Sample.world q)
            (stacking_order Sample.world q) = inl png) as Hencode by (vm_compute; reflexivity).
  destruct (invalid_identifiers_are_dropped Sample.world q Sample.in_order png Htints Hencode)
    as (_ & _ & Hresp & _ & Hcomposites).
  refine (conj Htints (conj Hencode (conj _ (conj Hresp _)))).
  - vm_compute; reflexivity.
  - rewrite Hcomposites. vm_compute. reflexivity.
Defined.

(** A rejecting tint task is a tint of a valid identifier that failed. *)
Lemma tint_failure_origin (W : World) (q : gmap string string) (reason : string) :
  reason ∈ tint_failures W q →
  ∃ muscle colorRgb,
    muscle ∈ primaryMuscles q ++ secondaryMuscles q
    ∧ valid W muscle = true
    ∧ sharp_tint W (musclePath W muscle) (rgb_of colorRgb) = inr reason.
Proof.
  unfold tint_failures, rejections, request_promises.
  rewrite omap_app, elem_of_app, !list_elem_of_omap.
  assert (∀ colorRgb muscle,
            rejected_reason (layer_promise W colorRgb muscle) = Some reason →
            valid W muscle = true
            ∧ sharp_tint W (musclePath W muscle) (rgb_of colorRgb) = inr reason) as Hone.
  { intros colorRgb muscle. unfold layer_promise.
    destruct (valid W muscle); [|done].
    destruct (sharp_tint W _ _); simpl; [done|]. by intros [= ->]. }
  intros [(p & Hp & Hrej)|(p & Hp & Hrej)];
    apply list_elem_of_fmap in Hp as (muscle & -> & Hin);
    destruct (Hone _ _ Hrej) as [Hvalid Htint];
    eexists muscle, _; (split; [|split; [exact Hvalid | exact Htint]]);
    apply elem_of_app; auto.
Qed.

(** The response of every request, by cases. *)
Lemma handler_response (W : World) (event : Event) (time : nat -> nat) :
  ∃ log resp,
    handler W event time = (log, Some resp)
    ∧ match queryStringParameters event with
      | None => resp = error_response (destructure_message W)
      | Some q =>
          match tint_failures W q with
          | [] => resp = finish (sharp_composite_png W (selected_base W q) (stacking_order W q))
          | _ :: _ => ∃ reason, reason ∈ tint_failures W q ∧ resp = error_response reason
          end
      end.
Proof.
  rewrite handler_eq. unfold handler_reading.
  destruct (queryStringParameters event) as [q|]; [|by eexists _, _].
  cbv zeta.
  destruct (first_rejected _ _) as [reason|] eqn:Hfirst.
  - eexists _, _. split; [done|].
    pose proof (first_rejected_in_rejections _ _ _ Hfirst) as Hin.
    fold (tint_failures W q) in Hin.
    destruct (tint_failures W q) as [|r0 rs] eqn:Hfail; [by apply elem_of_nil in Hin|].
    by exists reason.
  - eexists _, _. split; [done|].
    apply first_rejected_is_none in Hfirst. unfold tint_failures. by rewrite Hfirst.
Qed.

(** C3 as written fails: in a deployment whose biceps image does not
    decode, while the base canvas and the final encode never fail, a request
    for the biceps layer ends with status 500. *)
Lemma layer_decode_error_aborts_request :
  let event := Sample.request [("primary_muscles", "chest,biceps")] in
  existsSync Sample.damaged (musclePath Sample.damaged "biceps") = true
  ∧ (∀ colour, sharp_tint Sample.damaged (musclePath Sample.damaged "biceps") colour
               = inr "Input file contains unsupported image format")
  ∧ (∀ base layers, ∃ png, sharp_composite_png Sample.damaged base layers = inl png)
  ∧ (handler Sample.damaged event Sample.in_order).2
    = Some (error_response "Input file contains unsupported image format")
  ∧ statusCode (error_response "Input file contains unsupported image format") = 500%Z.
Proof.
  intros event. split; [|split; [|split; [|split]]].
  - vm_compute. reflexivity.
  - intros colour. vm_compute. reflexivity.
  - intros base layers. eexists. reflexivity.
  - vm_compute. reflexivity.
  - reflexivity.
Qed.

(** C3, amended.  The handler always answers, with one of two responses:
    status 200, content type image/png and the base64 text of the encoded
    composite, or status 500 and a JSON object with an error message and a
    detail string.  It answers 500 exactly when the query-parameter object
    is missing, when a tint task rejects (always the tint of an identifier
    that passed validation), or when the composite or its encoding fails;
    an identifier that fails validation never causes it. *)
Theorem fatal_failures_become_one_error_response (W : World) (event : Event) (time : nat -> nat) :
  (∃ log resp,
     handler W event time = (log, Some resp)
     ∧ match queryStringParameters event with
       | None => resp = error_response (destructure_message W)
       | Some q =>
           match tint_failures W q with
           | [] => resp = finish (sharp_composite_png W (selected_base W q) (stacking_order W q))
           | _ :: _ => ∃ reason, reason ∈ tint_failures W q ∧ resp = error_response reason
           end
       end)
  ∧ (∀ q reason, reason ∈ tint_failures W q →
       ∃ muscle colorRgb,
         muscle ∈ primaryMuscles q ++ secondaryMuscles q
         ∧ valid W muscle = true
         ∧ sharp_tint W (musclePath W muscle) (rgb_of colorRgb) = inr reason)
  ∧ (∀ finalImageBuffer,
       finish (inl finalImageBuffer)
       = {| statusCode := 200;
            headers := Some [("Content-Type", "image/png")];
            body := Encoding.toBase64 finalImageBuffer;
            isBase64Encoded := Some true |})
  ∧ (∀ reason,
       finish (inr reason)
       = {| statusCode := 500;
            headers := None;
            body := Encoding.json_object
                      [("error", "Failed to generate image."); ("details", reason)];
            isBase64Encoded := None |}).
Proof.
  split; [apply handler_response|].
  split; [apply tint_failure_origin|].
  split; reflexivity.
Qed.

(** The rejection of the damaged abs layer is traced to its tint. *)
Lemma fatal_failures_become_one_error_response_witness :
  let q : gmap string string := list_to_map [("secondary_muscles", "abs")] in
  "pngload: end of stream" ∈ tint_failures Sample.damaged q
  ∧ ∃ muscle colorRgb,
      muscle ∈ primaryMuscles q ++ secondaryMuscles q
      ∧ valid Sample.damaged muscle = true
      ∧ sharp_tint Sample.damaged (musclePath Sample.damaged muscle) (rgb_of colorRgb)
        = inr "pngload: end of stream".
Proof.
  intros q.
  assert ("pngload: end of stream" ∈ tint_failures Sample.damaged q) as Hin
    by (vm_compute; left).
  split; [exact Hin|].
  exact (proj1 (proj2 (fatal_failures_become_one_error_response
                         Sample.damaged {| queryStringParameters := Some q |} Sample.in_order))
           q _ Hin).
Defined.

(** ** Paths *)

Lemma has_muscle_elem (muscle : string) :
  has_muscle muscle = true ↔ muscle ∈ availableMuscleGroups.
Proof. unfold has_muscle. apply bool_decide_eq_true. Qed.

(** Every name of the allow-list is an ordinary file name once [.png] is
    appended, and none is blank. *)
Lemma allow_listed_names (muscle : string) :
  muscle ∈ availableMuscleGroups →
  plain_name (muscle +:+ ".png") ∧ blank muscle = false.
Proof.
  unfold availableMuscleGroups. rewrite elem_of_list_to_set.
  intros Hin.
  repeat (apply elem_of_cons in Hin as [->|Hin];
          [by split; [split; [reflexivity|]|reflexivity]|]).
  by apply elem_of_nil in Hin.
Qed.

Lemma musclePath_in_images (W : World) (muscle : string) :
  muscle ∈ availableMuscleGroups →
  musclePath W muscle = Path.resolve (dirname W) "../images" +:+ "/" +:+ muscle +:+ ".png".
Proof.
  intros [Hplain _]%allow_listed_names. unfold musclePath.
  by apply resolve_in_images.
Qed.

Lemma base_paths_in_images (W : World) :
  opaque_base W = Path.resolve (dirname W) "../images" +:+ "/baseImage.png"
  ∧ transparent_base W = Path.resolve (dirname W) "../images" +:+ "/baseImage_transparent.png".
Proof.
  split; apply (resolve_in_images (dirname W)); by split.
Qed.

Lemma base_paths_differ (W : World) : transparent_base W ≠ opaque_base W.
Proof.
  destruct (base_paths_in_images W) as [-> ->].
  intros Heq%(inj (String.app _)). discriminate.
Qed.

Lemma selected_base_cases (W : World) (q : gmap string string) :
  selected_base W q
  = if decide (q !! "transparent" = Some "1") then transparent_base W else opaque_base W.
Proof.
  unfold selected_base, baseImagePath, param.
  case_decide as Hone.
  - by rewrite Hone.
  - destruct (q !! "transparent") as [v|]; [|done]. simpl.
    by destruct (String.eqb_spec v "1") as [->|].
Qed.

Lemma paths_layer_log (W : World) colorRgb muscle :
  paths_touched (layer_log W colorRgb muscle)
  = if has_muscle muscle then
      if existsSync W (musclePath W muscle)
      then [musclePath W muscle; musclePath W muscle]
      else [musclePath W muscle]
    else [].
Proof.
  unfold layer_log. destruct (has_muscle muscle); [|done].
  by destruct (existsSync W _).
Qed.

(** The paths a request touches: those of its allow-listed identifiers,
    then possibly the selected base. *)
Lemma handler_paths (W : World) (event : Event) (time : nat -> nat) :
  Forall (fun path =>
            path = opaque_base W ∨ path = transparent_base W
            ∨ ∃ muscle, muscle ∈ availableMuscleGroups ∧ path = musclePath W muscle)
         (paths_touched (handler W event time).1).
Proof.
  assert (∀ colorRgb (muscles : list string),
            Forall (fun path => path = opaque_base W ∨ path = transparent_base W
                      ∨ ∃ muscle, muscle ∈ availableMuscleGroups ∧ path = musclePath W muscle)
                   (paths_touched (muscles ≫= layer_log W colorRgb))) as Hlayers.
  { intros colorRgb muscles. unfold paths_touched. rewrite omap_bind.
    apply Forall_bind, Forall_forall. intros muscle _.
    unfold compose. fold (paths_touched (layer_log W colorRgb muscle)).
    rewrite paths_layer_log.
    destruct (has_muscle muscle) eqn:Hhas; [|constructor].
    apply has_muscle_elem in Hhas.
    destruct (existsSync W _);
      repeat (apply Forall_cons; split; [right; right; by exists muscle|]);
      apply Forall_nil; exact I. }
  rewrite handler_eq. unfold handler_reading.
  destruct (queryStringParameters event) as [q|]; [|constructor].
  assert (selected_base W q = opaque_base W ∨ selected_base W q = transparent_base W) as Hbase.
  { rewrite selected_base_cases. case_decide; auto. }
  cbv zeta. destruct (first_rejected _ _) as [reason|]; cbn [fst];
    unfold paths_touched, request_log; rewrite !omap_app, !Forall_app.
  - repeat split; try apply Hlayers. constructor.
  - repeat split; try apply Hlayers.
    + cbn. constructor; [|constructor]. destruct Hbase; auto.
    + destruct (sharp_composite_png W _ _); constructor.
Qed.

(** C4.  [createTintedLayer] touches the file system only for a member of
    the allow-list, and then only at the path built from that member; the
    paths a whole request touches are those and the two fixed base-image
    paths.  Every such path is a file directly inside the images directory,
    named after the member: no other file can be reached through the muscle
    parameters.  The allow-list is a constant of twenty-seven names. *)
Theorem only_allow_listed_identifiers_reach_files (W : World) :
  (∀ muscle colorRgb,
     paths_touched (createTintedLayer W muscle colorRgb).1
     = if has_muscle muscle then
         if existsSync W (musclePath W muscle)
         then [musclePath W muscle; musclePath W muscle]
         else [musclePath W muscle]
       else [])
  ∧ (∀ event time,
       Forall (fun path =>
                 path = opaque_base W ∨ path = transparent_base W
                 ∨ ∃ muscle, muscle ∈ availableMuscleGroups ∧ path = musclePath W muscle)
              (paths_touched (handler W event time).1))
  ∧ (∀ muscle, muscle ∈ availableMuscleGroups →
       musclePath W muscle
       = Path.resolve (dirname W) "../images" +:+ "/" +:+ muscle +:+ ".png")
  ∧ (∀ muscle, has_muscle muscle = true ↔ muscle ∈ availableMuscleGroups)
  ∧ size availableMuscleGroups = 27%nat.
Proof.
  split; [|split; [|split; [|split]]].
  - intros muscle colorRgb. rewrite createTintedLayer_eq. apply paths_layer_log.
  - apply handler_paths.
  - intros muscle. apply musclePath_in_images.
  - apply has_muscle_elem.
  - vm_compute. reflexivity.
Qed.

(** The biceps layer is read from the images directory next to the
    functions directory. *)
Lemma only_allow_listed_identifiers_reach_files_witness :
  "biceps" ∈ availableMuscleGroups
  ∧ musclePath Sample.world "biceps" = "/var/task/images/biceps.png"
  ∧ paths_touched (createTintedLayer Sample.world "../../etc/passwd" []).1 = [].
Proof.
  assert ("biceps" ∈ availableMuscleGroups) as Hin
    by (apply has_muscle_elem; vm_compute; reflexivity).
  destruct (only_allow_listed_identifiers_reach_files Sample.world) as (Hlayer & _ & Hpath & _).
  split; [exact Hin|split].
  - rewrite (Hpath "biceps" Hin). vm_compute. reflexivity.
  - rewrite Hlayer. vm_compute. reflexivity.
Defined.

Section EmptyRequests.
Variable W : World.

Lemma invalid_layer_promise colorRgb (muscles : list string) :
  Forall (fun muscle => valid W muscle = false) muscles →
  rejections (layer_promise W colorRgb <$> muscles) = []
  ∧ tinted_layers W colorRgb muscles = []
  ∧ tint_calls W colorRgb muscles = [].
Proof.
  unfold rejections, tinted_layers, tint_calls.
  induction 1 as [|muscle muscles Hinvalid _ (IH1 & IH2 & IH3)]; [done|].
  rewrite fmap_cons, filter_cons. cbn [omap list_omap].
  unfold layer_promise at 1, tinted_layer at 1. rewrite Hinvalid. simpl.
  done.
Qed.

Lemma tints_layer_log colorRgb muscle :
  tints (layer_log W colorRgb muscle) = tint_calls W colorRgb [muscle].
Proof.
  unfold layer_log, tint_calls, valid. rewrite filter_cons, filter_nil.
  destruct (has_muscle muscle); [|done].
  by destruct (existsSync W _).
Qed.

Lemma tint_calls_cons colorRgb muscle (muscles : list string) :
  tint_calls W colorRgb (muscle :: muscles)
  = tint_calls W colorRgb [muscle] ++ tint_calls W colorRgb muscles.
Proof.
  unfold tint_calls. change (muscle :: muscles) with ([muscle] ++ muscles).
  by rewrite filter_app, fmap_app.
Qed.

Lemma tints_layers colorRgb (muscles : list string) :
  tints (muscles ≫= layer_log W colorRgb) = tint_calls W colorRgb muscles.
Proof.
  induction muscles as [|muscle muscles IH]; [done|].
  rewrite bind_cons, tint_calls_cons, <- IH, <- tints_layer_log.
  unfold tints. by rewrite omap_app.
Qed.

(** The tint tasks of a request do not depend on how it ends. *)
Lemma handler_tints (q : gmap string string) (time : nat -> nat) :
  tints (handler W {| queryStringParameters := Some q |} time).1
  = tint_calls W (primaryColorRgb W q) (primaryMuscles q)
    ++ tint_calls W (secondaryColorRgb W q) (secondaryMuscles q).
Proof.
  rewrite handler_some.
  assert (tints (request_log W q)
          = tint_calls W (primaryColorRgb W q) (primaryMuscles q)
            ++ tint_calls W (secondaryColorRgb W q) (secondaryMuscles q)) as Hlog.
  { unfold request_log, tints. rewrite omap_app.
    fold (tints (primaryMuscles q ≫= layer_log W (primaryColorRgb W q))).
    fold (tints (secondaryMuscles q ≫= layer_log W (secondaryColorRgb W q))).
    by rewrite !tints_layers. }
  destruct (first_rejected _ _) as [reason|]; cbn [fst];
    unfold tints in *; rewrite !omap_app, Hlog; cbn [omap list_omap tint_of].
  - by rewrite app_nil_r.
  - destruct (sharp_composite_png W _ _); by rewrite app_nil_r.
Qed.

End EmptyRequests.

(** C5.  When no token of either list passes validation (in particular
    when both lists are empty) and the selected base image encodes, no tint
    is started, [composite] is called on the selected base with no layer,
    and the response is status 200 with the encoding of that bare base. *)
Theorem empty_request_renders_base
    (W : World) (q : gmap string string) (time : nat -> nat) (finalImageBuffer : buffer)
    (Hnone : Forall (fun muscle => valid W muscle = false) (primaryMuscles q ++ secondaryMuscles q))
    (Hbase : sharp_composite_png W (selected_base W q) [] = inl finalImageBuffer) :
  (handler W {| queryStringParameters := Some q |} time).2 = Some (ok_response finalImageBuffer)
  ∧ statusCode (ok_response finalImageBuffer) = 200%Z
  ∧ composites (handler W {| queryStringParameters := Some q |} time).1 = [(selected_base W q, [])]
  ∧ tints (handler W {| queryStringParameters := Some q |} time).1 = [].
Proof.
  apply Forall_app in Hnone as [Hprimary Hsecondary].
  destruct (invalid_layer_promise W (primaryColorRgb W q) _ Hprimary) as (Hp1 & Hp2 & Hp3).
  destruct (invalid_layer_promise W (secondaryColorRgb W q) _ Hsecondary) as (Hs1 & Hs2 & Hs3).
  assert (tint_failures W q = []) as Hfail.
  { unfold tint_failures, rejections, request_promises. rewrite omap_app.
    unfold rejections in Hp1, Hs1. by rewrite Hp1, Hs1. }
  assert (stacking_order W q = []) as Hstack.
  { unfold stacking_order. by rewrite Hp2, Hs2. }
  split; [|split; [done|split]].
  - rewrite handler_some.
    apply first_rejected_is_none with (time := time) in Hfail.
    rewrite Hfail. cbn. by rewrite Hstack, Hbase.
  - by rewrite handler_composites, Hfail, Hstack.
  - by rewrite handler_tints, Hp3, Hs3.
Qed.

(** Empty tokens, a blank token and an unknown identifier; the opaque base
    is rendered alone. *)
Lemma empty_request_renders_base_witness :
  let q : gmap string string :=
    list_to_map [("primary_muscles", ",, ,"); ("secondary_muscles", "not_a_muscle")] in
  let png := Sample.bytes "/var/task/images/baseImage.png" in
  Forall (fun muscle => valid Sample.world muscle = false) (primaryMuscles q ++ secondaryMuscles q)
  ∧ sharp_composite_png Sample.world (selected_base Sample.world q) [] = inl png
  ∧ (handler Sample.world {| queryStringParameters := Some q |} Sample.in_order).2
    = Some (ok_response png)
  ∧ (handler Sample.world {| queryStringParameters := Some ∅ |} Sample.in_order).2
    = Some (ok_response png).
Proof.
  intros q png.
  assert (Forall (fun muscle => valid Sample.world muscle = false)
            (primaryMuscles q ++ secondaryMuscles q)) as Hnone
    by (vm_compute; repeat constructor).
  assert (sharp_composite_png Sample.world (selected_base Sample.world q) [] = inl png) as Hbase
    by (vm_compute; reflexivity).
  refine (conj Hnone (conj Hbase (conj _ _))).
  - exact (proj1 (empty_request_renders_base Sample.world q Sample.in_order png Hnone Hbase)).
  - refine (proj1 (empty_request_renders_base Sample.world ∅ Sample.in_order png _ _)).
    + vm_compute. constructor.
    + vm_compute. reflexivity.
Defined.

(** C6.  The transparent base is selected exactly when the [transparent]
    parameter is the string [1]; with any other value, or none, the opaque
    base is selected.  The two are different files, and the base given to
    [composite] is always the selected one. *)
Theorem base_selection_is_binary (W : World) (q : gmap string string) :
  (selected_base W q = transparent_base W ↔ q !! "transparent" = Some "1")
  ∧ (selected_base W q = opaque_base W ↔ q !! "transparent" ≠ Some "1")
  ∧ transparent_base W ≠ opaque_base W
  ∧ (∀ time,
       Forall (fun call => call.1 = selected_base W q)
              (composites (handler W {| queryStringParameters := Some q |} time).1)).
Proof.
  pose proof (base_paths_differ W) as Hdiff.
  rewrite selected_base_cases.
  split; [|split; [|split]].
  - case_decide; split; congruence.
  - case_decide; split; congruence.
  - done.
  - intros time. rewrite handler_composites.
    destruct (tint_failures W q); repeat constructor.
    simpl. by rewrite selected_base_cases.
Qed.

(** ** Completion order *)

Lemma same_reasons_elem (reasons : list string) (r1 r2 : string) :
  same_reasons reasons = true → r1 ∈ reasons → r2 ∈ reasons → r1 = r2.
Proof.
  destruct reasons as [|reason rest]; [by intros _ ?%elem_of_nil|].
  simpl. rewrite forallb_forall. intros Hall.
  assert (∀ r', r' ∈ reason :: rest → r' = reason) as Hsame.
  { intros r' [->|Hin]%elem_of_cons; [done|].
    apply list_elem_of_In, Hall, String.eqb_eq in Hin. done. }
  intros H1 H2. by rewrite (Hsame r1 H1), (Hsame r2 H2).
Qed.

(** C7 as written fails: with the same parameters and the same assets,
    two runs in which the two damaged layers finish in opposite orders
    return different bodies. *)
Lemma completion_order_changes_error_body :
  let event := Sample.request [("primary_muscles", "abs,biceps")] in
  (handler Sample.damaged event Sample.in_order).2
  = Some (error_response "pngload: end of stream")
  ∧ (handler Sample.damaged event Sample.reversed).2
    = Some (error_response "Input file contains unsupported image format")
  ∧ body (error_response "pngload: end of stream")
    ≠ body (error_response "Input file contains unsupported image format").
Proof.
  intros event. split; [|split].
  - vm_compute. reflexivity.
  - vm_compute. reflexivity.
  - vm_compute. discriminate.
Qed.

(** C7, amended.  For the same parameters and assets the status code is
    the same in every run, and so is the whole outcome, log included,
    whenever the tint tasks that reject (if any) all carry one message: in
    particular whenever the render succeeds, and when the query-parameter
    object is missing.  Completion order shows only in which of several
    different rejection messages is reported. *)
Theorem deterministic_up_to_first_rejection
    (W : World) (q : gmap string string) (time1 time2 : nat -> nat) :
  statusCode <$> (handler W {| queryStringParameters := Some q |} time1).2
  = statusCode <$> (handler W {| queryStringParameters := Some q |} time2).2
  ∧ (same_reasons (tint_failures W q) = true →
     handler W {| queryStringParameters := Some q |} time1
     = handler W {| queryStringParameters := Some q |} time2)
  ∧ handler W {| queryStringParameters := None |} time1
    = handler W {| queryStringParameters := None |} time2.
Proof.
  rewrite !handler_some.
  destruct (first_rejected _ (PromiseAll.completion_order time1 _)) as [r1|] eqn:H1;
    destruct (first_rejected _ (PromiseAll.completion_order time2 _)) as [r2|] eqn:H2.
  - split; [done|split; [|done]]. intros Hsame.
    apply first_rejected_in_rejections in H1, H2.
    by rewrite (same_reasons_elem _ r1 r2 Hsame H1 H2).
  - apply first_rejected_is_none in H2. apply first_rejected_in_rejections in H1.
    rewrite H2 in H1. by apply elem_of_nil in H1.
  - apply first_rejected_is_none in H1. apply first_rejected_in_rejections in H2.
    rewrite H1 in H2. by apply elem_of_nil in H2.
  - done.
Qed.

(** One damaged layer: both completion orders give the same outcome. *)
Lemma deterministic_up_to_first_rejection_witness :
  let q : gmap string string := list_to_map [("primary_muscles", "chest,abs"); ("transparent", "1")] in
  same_reasons (tint_failures Sample.damaged q) = true
  ∧ handler Sample.damaged {| queryStringParameters := Some q |} Sample.in_order
    = handler Sample.damaged {| queryStringParameters := Some q |} Sample.reversed.
Proof.
  intros q.
  assert (same_reasons (tint_failures Sample.damaged q) = true) as Hsame
    by (vm_compute; reflexivity).
  split; [exact Hsame|].
  exact (proj1 (proj2 (deterministic_up_to_first_rejection
                         Sample.damaged q Sample.in_order Sample.reversed)) Hsame).
Defined.



(** ** Tokens and defaults *)

Lemma truthy_nonempty (tok : string) : JsString.truthy tok ↔ tok ≠ "".
Proof. destruct tok; simpl; split; done. Qed.

Lemma muscle_list_elem (s tok : string) :
  tok ∈ muscle_list s ↔ tok ≠ "" ∧ tok ∈ JsString.split "," s.
Proof. unfold muscle_list. by rewrite list_elem_of_filter, truthy_nonempty. Qed.

Lemma blank_not_allow_listed (tok : string) : blank tok = true → has_muscle tok = false.
Proof.
  intros Hblank. destruct (has_muscle tok) eqn:Hhas; [|done].
  apply has_muscle_elem, allow_listed_names in Hhas as [_ Hnot]. congruence.
Qed.

(** C9 as written fails: a token of one space is not discarded by the
    filter; it is handed to validation, which warns about it. *)
Lemma blank_token_reaches_validation :
  muscle_list " " = [" "]
  ∧ muscle_list "abs, ,chest" = ["abs"; " "; "chest"]
  ∧ warnings (handler Sample.world (Sample.request [("primary_muscles", " ")]) Sample.in_order).1
    = ["Invalid muscle group requested:  "].
Proof. split; [|split]; vm_compute; reflexivity. Qed.

(** C9, amended.  The identifier list is the comma-separated tokens of the
    string with the empty ones removed, in order, and nothing else removed:
    a white-space token stays in the list.  Such a token is then refused by
    the allow-list check: a warning, the promise of [null], no file touched,
    no error. *)
Theorem empty_tokens_dropped_blank_tokens_refused (W : World) :
  (∀ s, "" ∉ muscle_list s)
  ∧ (∀ s tok, tok ≠ "" → (tok ∈ muscle_list s ↔ tok ∈ JsString.split "," s))
  ∧ (∀ toks, toks ≠ [] →
       Forall (fun tok => JsString.includes "," tok = false) toks →
       muscle_list (JsString.join "," toks) = filter (fun tok => tok ≠ "") toks)
  ∧ (∀ tok colorRgb, blank tok = true →
       createTintedLayer W tok colorRgb
       = ([ConsoleWarn ("Invalid muscle group requested: " +:+ tok)], Normal (Fulfilled None))).
Proof.
  split; [|split; [|split]].
  - intros s Hin. apply muscle_list_elem in Hin as [Hne _]. done.
  - intros s tok Hne. rewrite muscle_list_elem. tauto.
  - intros toks Hne Hall. unfold muscle_list.
    rewrite (split_join "," toks Hne Hall).
    apply list_filter_iff. intros tok. apply truthy_nonempty.
  - intros tok colorRgb Hblank. rewrite createTintedLayer_eq.
    unfold layer_log, layer_promise, valid.
    by rewrite (blank_not_allow_listed tok Hblank).
Qed.

(** Consecutive, leading and trailing commas, and a blank entry. *)
Lemma empty_tokens_dropped_blank_tokens_refused_witness :
  muscle_list ",abs,, ,chest," = ["abs"; " "; "chest"]
  ∧ createTintedLayer Sample.world " " []
    = ([ConsoleWarn "Invalid muscle group requested:  "], Normal (Fulfilled None)).
Proof.
  destruct (empty_tokens_dropped_blank_tokens_refused Sample.world) as (_ & _ & Hjoin & Hblank).
  split.
  - apply (Hjoin [""; "abs"; ""; " "; "chest"; ""]); [done|].
    repeat constructor.
  - apply (Hblank " " []). reflexivity.
Defined.

Section Defaults.
Variable W : World.




End Defaults.


(** ** Sample runs *)

Example split_keeps_empty_tokens : JsString.split "," "a,,b," = ["a"; ""; "b"; ""].
Proof. reflexivity. Qed.

Example split_of_empty_string : JsString.split "," "" = [""].
Proof. reflexivity. Qed.

Example resolve_sibling_directory :
  Path.resolve "/var/task/functions" "../images/abs.png" = "/var/task/images/abs.png".
Proof. reflexivity. Qed.

Example resolve_stops_at_root : Path.resolve "/" "../images/abs.png" = "/images/abs.png".
Proof. reflexivity. Qed.

Example base64_vectors :
  Encoding.toBase64 (Sample.bytes "f") = "Zg=="
  ∧ Encoding.toBase64 (Sample.bytes "fo") = "Zm8="
  ∧ Encoding.toBase64 (Sample.bytes "foobar") = "Zm9vYmFy".
Proof. repeat split; vm_compute; reflexivity. Qed.

Example json_escapes_control_characters :
  Encoding.json_escape_all (String "010"%char (String "001"%char "a\b")) = "\n\u0001a\\b".
Proof. vm_compute. reflexivity. Qed.

Example promise_all_keeps_index_order :
  PromiseAll.all Sample.reversed [Fulfilled 10; Fulfilled 20; Fulfilled 30] = Fulfilled [10; 20; 30]
  ∧ PromiseAll.completion_order Sample.reversed 3 = [2; 1; 0]%nat.
Proof. split; vm_compute; reflexivity. Qed.

Example promise_all_first_rejection_wins :
  PromiseAll.all Sample.in_order [Fulfilled 10; Rejected "first"; Rejected "second"] = Rejected "first"
  ∧ PromiseAll.all Sample.reversed [Fulfilled 10; Rejected "first"; Rejected "second"] = Rejected "second".
Proof. split; vm_compute; reflexivity. Qed.

Example secondary_layers_on_top :
  composites (handler Sample.world
                (Sample.request [("primary_muscles", "biceps,abs"); ("secondary_muscles", "chest");
                                 ("transparent", "1")])
                Sample.reversed).1
  = [("/var/task/images/baseImage_transparent.png",
      [ {| input := Sample.bytes "/var/task/images/biceps.png" |};
        {| input := Sample.bytes "/var/task/images/abs.png" |};
        {| input := Sample.bytes "/var/task/images/chest.png" |} ])].
Proof. vm_compute. reflexivity. Qed.

Example missing_file_is_dropped :
  (handler Sample.world (Sample.request [("primary_muscles", "neck")]) Sample.in_order).1
  = [ FsExistsSync "/var/task/images/neck.png";
      ConsoleWarn "Image file not found for muscle: neck";
      SharpComposite "/var/task/images/baseImage.png" [] ].
Proof. vm_compute. reflexivity. Qed.

(** * Further properties of the handler *)

Import Observations.

Section LogObservations.
Variable W : World.
Implicit Types (q : gmap string string) (muscle : string) (colorRgb : list spec_float).

Lemma warnings_layer_log colorRgb muscle :
  warnings (layer_log W colorRgb muscle) = option_list (warning_for W muscle).
Proof.
  unfold layer_log, warning_for. destruct (has_muscle muscle); [|done].
  by destruct (existsSync W _).
Qed.

Lemma warnings_layers colorRgb (muscles : list string) :
  warnings (muscles ≫= layer_log W colorRgb) = omap (warning_for W) muscles.
Proof.
  induction muscles as [|muscle muscles IH]; [done|].
  rewrite bind_cons. unfold warnings in *. rewrite omap_app, IH.
  fold (warnings (layer_log W colorRgb muscle)). rewrite warnings_layer_log.
  cbn [omap list_omap]. by destruct (warning_for W muscle).
Qed.

Lemma exists_checks_layers colorRgb (muscles : list string) :
  exists_checks (muscles ≫= layer_log W colorRgb)
  = musclePath W <$> filter (fun muscle => has_muscle muscle) muscles.
Proof.
  induction muscles as [|muscle muscles IH]; [done|].
  rewrite bind_cons, filter_cons. unfold exists_checks in *. rewrite omap_app, IH.
  unfold layer_log. destruct (has_muscle muscle); [|done].
  by destruct (existsSync W _).
Qed.

Lemma errors_layers colorRgb (muscles : list string) :
  errors_logged (muscles ≫= layer_log W colorRgb) = [].
Proof.
  induction muscles as [|muscle muscles IH]; [done|].
  rewrite bind_cons. unfold errors_logged in *. rewrite omap_app, IH.
  unfold layer_log. destruct (has_muscle muscle); [|done].
  by destruct (existsSync W _).
Qed.

Lemma warning_for_none muscle : warning_for W muscle = None ↔ valid W muscle = true.
Proof.
  unfold warning_for, valid. destruct (has_muscle muscle); [|done].
  by destruct (existsSync W _).
Qed.

Lemma warnings_count (muscles : list string) :
  length (omap (warning_for W) muscles)
  = length (filter (fun muscle => valid W muscle = false) muscles).
Proof.
  induction muscles as [|muscle muscles IH]; [done|].
  rewrite filter_cons. cbn [omap list_omap].
  pose proof (warning_for_none muscle) as Hnone.
  destruct (warning_for W muscle) as [msg|]; destruct (valid W muscle).
  - by pose proof (proj2 Hnone eq_refl).
  - rewrite decide_True by done. simpl. by rewrite IH.
  - rewrite decide_False by done. exact IH.
  - by pose proof (proj1 Hnone eq_refl).
Qed.

End LogObservations.

(** X1.  Whatever the completion order and however the request ends,
    [console.warn] is called once for each listed identifier that fails a
    guard, in request order (primary list first), with the message of the
    guard it failed; so there are as many warnings as dropped identifiers,
    repeated ones counted each time. *)
Theorem one_warning_per_dropped_identifier (W : World) (q : gmap string string) (time : nat -> nat) :
  warnings (handler W {| queryStringParameters := Some q |} time).1
  = omap (warning_for W) (primaryMuscles q ++ secondaryMuscles q)
  ∧ length (warnings (handler W {| queryStringParameters := Some q |} time).1)
    = length (filter (fun muscle => valid W muscle = false) (primaryMuscles q ++ secondaryMuscles q)).
Proof.
  assert (warnings (handler W {| queryStringParameters := Some q |} time).1
          = omap (warning_for W) (primaryMuscles q ++ secondaryMuscles q)) as Hwarn.
  { rewrite handler_some, omap_app.
    rewrite <- (warnings_layers W (primaryColorRgb W q)), <- (warnings_layers W (secondaryColorRgb W q)).
    destruct (first_rejected _ _) as [reason|]; cbn [fst];
      unfold request_log, warnings; rewrite !omap_app; cbn [omap list_omap warning_of].
    - by rewrite app_nil_r.
    - destruct (sharp_composite_png W _ _); cbn; by rewrite app_nil_r. }
  split; [exact Hwarn|].
  rewrite Hwarn. apply warnings_count.
Qed.

Lemma errors_request_log (W : World) (q : gmap string string) :
  errors_logged (request_log W q) = [].
Proof.
  unfold request_log, errors_logged. rewrite omap_app.
  fold (errors_logged (primaryMuscles q ≫= layer_log W (primaryColorRgb W q))).
  fold (errors_logged (secondaryMuscles q ≫= layer_log W (secondaryColorRgb W q))).
  by rewrite !errors_layers.
Qed.

(** X2.  Every invocation answers, and [console.error] tells how: a 200
    response comes with no [console.error] at all, a 500 response with
    exactly one, made last, whose reason is the detail string of the
    response body.  No other status is ever returned. *)
Theorem error_logged_exactly_when_500 (W : World) (event : Event) (time : nat -> nat) :
  ∃ log resp,
    handler W event time = (log, Some resp)
    ∧ ((∃ png, resp = ok_response png ∧ statusCode resp = 200%Z ∧ errors_logged log = [])
       ∨ (∃ reason, resp = error_response reason ∧ statusCode resp = 500%Z
                    ∧ errors_logged log = [reason]
                    ∧ last log = Some (ConsoleError "Error generating image:" reason))).
Proof.
  rewrite handler_eq. unfold handler_reading.
  destruct (queryStringParameters event) as [q|].
  - cbv zeta. destruct (first_rejected _ _) as [reason|].
    + eexists _, _. split; [done|]. right. exists reason.
      split; [done|split; [done|split]].
      * unfold errors_logged. rewrite omap_app.
        fold (errors_logged (request_log W q)). by rewrite errors_request_log.
      * by rewrite last_snoc.
    + eexists _, _. split; [done|].
      destruct (sharp_composite_png W _ _) as [png|reason]; cbn [finish finish_log].
      * left. exists png. split; [done|split; [done|]].
        unfold errors_logged. rewrite !omap_app.
        fold (errors_logged (request_log W q)). by rewrite errors_request_log.
      * right. exists reason. split; [done|split; [done|split]].
        -- unfold errors_logged. rewrite !omap_app.
           fold (errors_logged (request_log W q)). by rewrite errors_request_log.
        -- rewrite app_assoc. by rewrite last_snoc.
  - eexists _, _. split; [done|]. right. by exists (destructure_message W).
Qed.

(** X3.  [fs.existsSync] is called once for every listed identifier that is
    in the allow-list, in request order and on the path built from it:
    never for a name outside the allow-list, and again for each repetition
    of a name (nothing is cached). *)
Theorem one_existence_check_per_allow_listed_identifier
    (W : World) (q : gmap string string) (time : nat -> nat) :
  exists_checks (handler W {| queryStringParameters := Some q |} time).1
  = musclePath W <$> filter (fun muscle => has_muscle muscle) (primaryMuscles q ++ secondaryMuscles q).
Proof.
  rewrite handler_some, filter_app, fmap_app.
  rewrite <- (exists_checks_layers W (primaryColorRgb W q)),
          <- (exists_checks_layers W (secondaryColorRgb W q)).
  destruct (first_rejected _ _) as [reason|]; cbn [fst];
    unfold request_log, exists_checks; rewrite !omap_app; cbn [omap list_omap exists_check_of].
  - by rewrite app_nil_r.
  - destruct (sharp_composite_png W _ _); cbn; by rewrite app_nil_r.
Qed.

(** X4.  [sharp] is asked to tint only files that [fs.existsSync] reported
    present, each the image of an allow-listed name; this holds for every
    event, also one without query parameters. *)
Theorem tints_only_existing_allow_listed_files (W : World) (event : Event) (time : nat -> nat) :
  Forall (fun call => existsSync W call.1 = true
                      ∧ ∃ muscle, muscle ∈ availableMuscleGroups ∧ call.1 = musclePath W muscle)
         (tints (handler W event time).1).
Proof.
  destruct event as [[q|]].
  - rewrite handler_tints. unfold tint_calls.
    apply Forall_app; split; apply Forall_fmap, Forall_forall;
      intros muscle [Hvalid _]%list_elem_of_filter; simpl;
      unfold valid in Hvalid; apply Is_true_true, andb_true_iff in Hvalid as [Hhas Hexists];
      (split; [exact Hexists|]); exists muscle; by rewrite <- has_muscle_elem.
  - rewrite handler_eq. constructor.
Qed.

Lemma layers_count (W : World) colorRgb (muscles : list string) :
  (length (tinted_layers W colorRgb muscles)
   ≤ length (filter (fun muscle => valid W muscle) muscles))%nat
  ∧ (rejections (layer_promise W colorRgb <$> muscles) = [] →
     length (tinted_layers W colorRgb muscles) = length (filter (fun muscle => valid W muscle) muscles)).
Proof.
  unfold tinted_layers, rejections. rewrite length_fmap.
  induction muscles as [|muscle muscles [IHle IHeq]]; [done|].
  rewrite fmap_cons, filter_cons. cbn [omap list_omap].
  assert (tinted_layer W colorRgb muscle = fulfilled_value (layer_promise W colorRgb muscle) ≫= id
          ∧ (valid W muscle = false → layer_promise W colorRgb muscle = Fulfilled None)
          ∧ (rejected_reason (layer_promise W colorRgb muscle) = None →
             valid W muscle = true → is_Some (tinted_layer W colorRgb muscle)))
    as (Hlayer & Hinvalid & Hvalid).
  { unfold tinted_layer, layer_promise. destruct (valid W muscle); [|done].
    destruct (sharp_tint W _ _); simpl; (split; [done|split; [done|]]); [eauto|done]. }
  destruct (valid W muscle).
  - rewrite decide_True by done.
    destruct (rejected_reason (layer_promise W colorRgb muscle)) as [reason|].
    + split; [|done]. destruct (tinted_layer W colorRgb muscle); simpl; lia.
    + destruct (Hvalid eq_refl eq_refl) as [layerBuffer ->]. simpl.
      split; [lia|]. intros Hrest. by rewrite IHeq.
  - rewrite decide_False by (by intros []).
    rewrite Hlayer, (Hinvalid eq_refl). simpl. by split.
Qed.

(** X5.  The stack never has more layers than identifiers that pass
    validation, hence never more than listed identifiers; and a call of
    [composite] is always made with exactly one layer for each listed
    identifier that passes validation. *)
Theorem one_layer_per_valid_identifier (W : World) (q : gmap string string) (time : nat -> nat) :
  (length (stacking_order W q)
   ≤ length (filter (fun muscle => valid W muscle) (primaryMuscles q ++ secondaryMuscles q)))%nat
  ∧ (length (filter (fun muscle => valid W muscle) (primaryMuscles q ++ secondaryMuscles q))
     ≤ length (primaryMuscles q ++ secondaryMuscles q))%nat
  ∧ Forall (fun call =>
              length call.2
              = length (filter (fun muscle => valid W muscle) (primaryMuscles q ++ secondaryMuscles q)))
           (composites (handler W {| queryStringParameters := Some q |} time).1).
Proof.
  destruct (layers_count W (primaryColorRgb W q) (primaryMuscles q)) as [Hp Hp'].
  destruct (layers_count W (secondaryColorRgb W q) (secondaryMuscles q)) as [Hs Hs'].
  rewrite filter_app, !length_app. unfold stacking_order. rewrite length_app.
  split; [lia|]. split.
  - pose proof (length_filter (fun muscle => valid W muscle) (primaryMuscles q)).
    pose proof (length_filter (fun muscle => valid W muscle) (secondaryMuscles q)). lia.
  - rewrite handler_composites.
    destruct (tint_failures W q) as [|r0 rs] eqn:Hfail; [|constructor].
    unfold tint_failures, rejections, request_promises in Hfail.
    rewrite omap_app in Hfail. apply app_eq_nil in Hfail as [H1 H2].
    constructor; [|constructor]. cbn [snd].
    unfold stacking_order. rewrite length_app, (Hp' H1), (Hs' H2). done.
Qed.

Section RequestDependence.
Variable W : World.
Implicit Types (q : gmap string string) (muscle : string) (colorRgb : list spec_float).

Lemma layer_by_rgb colorRgb colorRgb' muscle :
  rgb_of colorRgb = rgb_of colorRgb' →
  layer_promise W colorRgb muscle = layer_promise W colorRgb' muscle
  ∧ layer_log W colorRgb muscle = layer_log W colorRgb' muscle
  ∧ tinted_layer W colorRgb muscle = tinted_layer W colorRgb' muscle.
Proof.
  intros Hrgb. unfold layer_promise, layer_log, tinted_layer. by rewrite Hrgb.
Qed.

(** The outcome is a function of the two identifier lists, the two colour
    triples and the base. *)
Lemma handler_by_parts q q' time :
  primaryMuscles q = primaryMuscles q' →
  secondaryMuscles q = secondaryMuscles q' →
  rgb_of (primaryColorRgb W q) = rgb_of (primaryColorRgb W q') →
  rgb_of (secondaryColorRgb W q) = rgb_of (secondaryColorRgb W q') →
  selected_base W q = selected_base W q' →
  handler W {| queryStringParameters := Some q |} time
  = handler W {| queryStringParameters := Some q' |} time.
Proof.
  intros Hp Hs Hpc Hsc Hbase.
  assert (request_promises W q = request_promises W q') as Hpromises.
  { unfold request_promises. rewrite Hp, Hs.
    f_equal; apply list_fmap_ext; intros _ muscle _; by apply layer_by_rgb. }
  assert (request_log W q = request_log W q') as Hlog.
  { unfold request_log. rewrite Hp, Hs.
    f_equal; apply list_bind_ext; try done; intros muscle; by apply layer_by_rgb. }
  assert (stacking_order W q = stacking_order W q') as Hstack.
  { unfold stacking_order, tinted_layers. rewrite Hp, Hs.
    f_equal; f_equal; apply list_omap_ext, Forall_Forall2_diag, Forall_forall;
      intros muscle _; by apply layer_by_rgb. }
  rewrite !handler_some. by rewrite Hpromises, Hlog, Hstack, Hbase.
Qed.

Lemma rgb_of_take colorRgb : rgb_of (take 3 colorRgb) = rgb_of colorRgb.
Proof. unfold rgb_of. by rewrite !lookup_take_lt by lia. Qed.

End RequestDependence.

(** X6.  Only the five destructured properties matter: two query-parameter
    objects that agree on them get the same response and the same effects,
    whatever other keys either carries. *)
Theorem other_parameters_are_ignored
    (W : World) (q q' : gmap string string) (time : nat -> nat)
    (Hagree : Forall (fun key => q !! key = q' !! key) request_keys) :
  handler W {| queryStringParameters := Some q |} time
  = handler W {| queryStringParameters := Some q' |} time.
Proof.
  unfold request_keys in Hagree.
  repeat (apply Forall_cons in Hagree as [? Hagree]).
  apply handler_by_parts;
    unfold primaryMuscles, secondaryMuscles, primaryColorRgb, secondaryColorRgb,
      selected_base, param; congruence.
Qed.

(** A request with tracking parameters added. *)
Lemma other_parameters_are_ignored_witness :
  let q : gmap string string := list_to_map [("primary_muscles", "abs"); ("transparent", "1")] in
  let q' : gmap string string :=
    list_to_map [("utm_source", "mail"); ("primary_muscles", "abs"); ("transparent", "1");
                 ("Transparent", "0")] in
  Forall (fun key => q !! key = q' !! key) request_keys
  ∧ handler Sample.world {| queryStringParameters := Some q |} Sample.in_order
    = handler Sample.world {| queryStringParameters := Some q' |} Sample.in_order.
Proof.
  intros q q'.
  assert (Forall (fun key => q !! key = q' !! key) request_keys) as Hagree
    by (repeat constructor).
  split; [exact Hagree|].
  exact (other_parameters_are_ignored Sample.world q q' Sample.in_order Hagree).
Defined.

(** X7.  Of a colour string only the first three comma-separated
    components are used: two requests that differ only in what follows the
    third component of a colour get the same response and the same
    effects. *)
Theorem colour_components_beyond_third_are_ignored
    (W : World) (q q' : gmap string string) (time : nat -> nat)
    (Hagree : Forall (fun key => q !! key = q' !! key)
                     ["primary_muscles"; "secondary_muscles"; "transparent"])
    (Hprimary : take 3 (JsString.split "," (param q "primary_color" "255,152,0"))
                = take 3 (JsString.split "," (param q' "primary_color" "255,152,0")))
    (Hsecondary : take 3 (JsString.split "," (param q "secondary_color" "255,211,144"))
                  = take 3 (JsString.split "," (param q' "secondary_color" "255,211,144"))) :
  handler W {| queryStringParameters := Some q |} time
  = handler W {| queryStringParameters := Some q' |} time.
Proof.
  repeat (apply Forall_cons in Hagree as [? Hagree]).
  apply handler_by_parts;
    try (unfold primaryMuscles, secondaryMuscles, selected_base, param; congruence).
  - rewrite <- (rgb_of_take (primaryColorRgb W q)), <- (rgb_of_take (primaryColorRgb W q')).
    unfold primaryColorRgb, color_list. rewrite <- !fmap_take. by rewrite Hprimary.
  - rewrite <- (rgb_of_take (secondaryColorRgb W q)), <- (rgb_of_take (secondaryColorRgb W q')).
    unfold secondaryColorRgb, color_list. rewrite <- !fmap_take. by rewrite Hsecondary.
Qed.

(** A colour with an alpha component and one without. *)
Lemma colour_components_beyond_third_are_ignored_witness :
  let q : gmap string string :=
    list_to_map [("primary_muscles", "abs,chest"); ("primary_color", "255,0,0")] in
  let q' : gmap string string :=
    list_to_map [("primary_muscles", "abs,chest"); ("primary_color", "255,0,0,128,x")] in
  handler Sample.world {| queryStringParameters := Some q |} Sample.in_order
  = handler Sample.world {| queryStringParameters := Some q' |} Sample.in_order.
Proof.
  intros q q'.
  apply (colour_components_beyond_third_are_ignored Sample.world q q' Sample.in_order).
  - repeat constructor.
  - vm_compute. reflexivity.
  - vm_compute. reflexivity.
Defined.

Lemma allow_listed_identifier_like (muscle : string) :
  muscle ∈ availableMuscleGroups → identifier_like muscle = true.
Proof.
  unfold availableMuscleGroups. rewrite elem_of_list_to_set. intros Hin.
  repeat (apply elem_of_cons in Hin as [->|Hin]; [reflexivity|]).
  by apply elem_of_nil in Hin.
Qed.

(** X8.  Identifiers are compared as they are, without trimming or case
    folding: a token with any character other than a lower-case letter or
    an underscore (a space after a comma, a capital, a dot or a slash) is
    refused by the allow-list guard, with its warning, before any file is
    looked at. *)
Theorem tokens_with_other_characters_are_refused
    (W : World) (tok : string) (colorRgb : list spec_float)
    (Hother : identifier_like tok = false) :
  createTintedLayer W tok colorRgb
  = ([ConsoleWarn ("Invalid muscle group requested: " +:+ tok)], Normal (Fulfilled None)).
Proof.
  assert (has_muscle tok = false) as Hhas.
  { destruct (has_muscle tok) eqn:Hhas; [|done].
    apply has_muscle_elem, allow_listed_identifier_like in Hhas. congruence. }
  rewrite createTintedLayer_eq. unfold layer_log, layer_promise, valid. by rewrite Hhas.
Qed.

(** The second entry of [abs, biceps] keeps its leading space. *)
Lemma tokens_with_other_characters_are_refused_witness :
  muscle_list "abs, biceps" = ["abs"; " biceps"]
  ∧ identifier_like " biceps" = false
  ∧ createTintedLayer Sample.world " biceps" []
    = ([ConsoleWarn "Invalid muscle group requested:  biceps"], Normal (Fulfilled None))
  ∧ createTintedLayer Sample.world "Biceps" []
    = ([ConsoleWarn "Invalid muscle group requested: Biceps"], Normal (Fulfilled None)).
Proof.
  split; [reflexivity|]. split; [reflexivity|]. split.
  - apply (tokens_with_other_characters_are_refused Sample.world " biceps" []). reflexivity.
  - apply (tokens_with_other_characters_are_refused Sample.world "Biceps" []). reflexivity.
Defined.

Section AssetPaths.

Lemma length_append (s1 s2 : string) :
  String.length (s1 +:+ s2) = (String.length s1 + String.length s2)%nat.
Proof. induction s1 as [|c s1 IH]; [done|]. rewrite append_cons. simpl. by rewrite IH. Qed.

Lemma append_cancel_r (s1 s2 t : string) : s1 +:+ t = s2 +:+ t → s1 = s2.
Proof.
  revert s2. induction s1 as [|c1 s1 IH]; intros [|c2 s2] Heq; [done| | |].
  - apply (f_equal String.length) in Heq. rewrite append_cons in Heq.
    simpl in Heq. rewrite !length_append in Heq. simpl in Heq. lia.
  - apply (f_equal String.length) in Heq. rewrite append_cons in Heq.
    simpl in Heq. rewrite !length_append in Heq. simpl in Heq. lia.
  - rewrite !append_cons in Heq. injection Heq as -> Heq. by rewrite (IH s2 Heq).
Qed.

End AssetPaths.

(** X9.  Each allow-listed name has an image path of its own: two names
    share a path only if they are the same name, and no name's path is
    either base image, so a muscle parameter can never make a base image be
    tinted as a layer. *)
Theorem asset_paths_are_distinct (W : World) (muscle1 muscle2 : string)
    (Hin1 : muscle1 ∈ availableMuscleGroups) (Hin2 : muscle2 ∈ availableMuscleGroups) :
  (musclePath W muscle1 = musclePath W muscle2 → muscle1 = muscle2)
  ∧ musclePath W muscle1 ≠ opaque_base W
  ∧ musclePath W muscle1 ≠ transparent_base W.
Proof.
  destruct (base_paths_in_images W) as [Hopaque Htransparent].
  rewrite (musclePath_in_images W muscle1 Hin1), (musclePath_in_images W muscle2 Hin2),
    Hopaque, Htransparent.
  split; [|split].
  - intros Heq%(inj (String.app _)).
    change ("/" +:+ ?m +:+ ".png") with (String "/" (m +:+ ".png")) in Heq.
    injection Heq as Heq. by apply append_cancel_r in Heq.
  - intros Heq%(inj (String.app _)).
    change ("/" +:+ muscle1 +:+ ".png") with (String "/" (muscle1 +:+ ".png")) in Heq.
    change "/baseImage.png" with (String "/" ("baseImage" +:+ ".png")) in Heq.
    injection Heq as Heq. apply append_cancel_r in Heq. subst muscle1.
    apply has_muscle_elem in Hin1. vm_compute in Hin1. discriminate.
  - intros Heq%(inj (String.app _)).
    change ("/" +:+ muscle1 +:+ ".png") with (String "/" (muscle1 +:+ ".png")) in Heq.
    change "/baseImage_transparent.png"
      with (String "/" ("baseImage_transparent" +:+ ".png")) in Heq.
    injection Heq as Heq. apply append_cancel_r in Heq. subst muscle1.
    apply has_muscle_elem in Hin1. vm_compute in Hin1. discriminate.
Qed.

(** Two names of which one is a prefix of the other. *)
Lemma asset_paths_are_distinct_witness :
  "back" ∈ availableMuscleGroups ∧ "back_lower" ∈ availableMuscleGroups
  ∧ musclePath Sample.world "back" ≠ opaque_base Sample.world
  ∧ (musclePath Sample.world "back" = musclePath Sample.world "back_lower" → "back" = "back_lower").
Proof.
  assert ("back" ∈ availableMuscleGroups) as Hin1
    by (apply has_muscle_elem; vm_compute; reflexivity).
  assert ("back_lower" ∈ availableMuscleGroups) as Hin2
    by (apply has_muscle_elem; vm_compute; reflexivity).
  destruct (asset_paths_are_distinct Sample.world "back" "back_lower" Hin1 Hin2)
    as (Hinj & Hopaque & _).
  exact (conj Hin1 (conj Hin2 (conj Hopaque Hinj))).
Defined.

Section ListComposition.
Variable W : World.




End ListComposition.

